(** * Master-Thesis data-collection scripts: a shallow embedding

    Two Python scripts are modelled here:
    - [fetch_core_transcripts.py]: transcript resolution with a fallback
      tier, and the merge of the resolved transcripts onto the input table;
    - [youtube_aigc_sampler.py]: keyword search, deduplication, detail
      enrichment, field reconciliation and month bucketing.

    Python values are modelled as follows.  A [str] is a [string] whose
    characters stand for code points below 256.  A table cell, or any value
    that may be [None]/[NaN], is a [cell] ([None] is the null value).
    Exceptions are explicit: fallible code returns an [outcome], and code
    with visible side effects (API calls, [print], [to_csv]) runs in the
    writer-and-error monad [M].  The progress bars of [tqdm] are left out. *)

From Stdlib Require Import Ascii String.
From stdpp Require Import base tactics option list sets strings pretty.

Open Scope string_scope.
Open Scope nat_scope.
Open Scope list_scope.
Open Scope stdpp_scope.

(** ** Python runtime: values, exceptions, effects *)

Module Py.

(** [None] or [NaN] is [None]; a string [s] is [Some s]. *)
Definition cell : Type := option string.

(** Instances of [Exception].  The first three are the classes imported
    from [youtube_transcript_api]; [OtherException] stands for an instance of
    any other class. *)
Inductive exn : Type :=
  | TranscriptsDisabled
  | NoTranscriptFound
  | VideoUnavailable
  | ValueError (msg : string)
  | KeyError (key : string)
  | MergeError
  | OtherException (name : string).

Inductive outcome (A : Type) : Type :=
  | Return (a : A)
  | Raise (e : exn).
Arguments Return {A} a.
Arguments Raise {A} e.

(** A table as pandas holds it: column labels, and the rows in index
    order, each row listing its cells in column order. *)
Record DataFrame : Type := mkDataFrame {
  columns : list string;
  rows : list (list cell)
}.

(** A computation that leaves events of type [E] behind, in order, and
    either returns or raises. *)
Definition M (E A : Type) : Type := list E * outcome A.

Section Monad.
Context {E : Type}.

Definition ret {A} (a : A) : M E A := ([], Return a).
Definition raise {A} (e : exn) : M E A := ([], Raise e).
Definition emit (ev : E) : M E unit := ([ev], Return tt).

(** A library call without a visible effect. *)
Definition lift {A} (o : outcome A) : M E A := ([], o).

Definition bind {A B} (m : M E A) (k : A -> M E B) : M E B :=
  match m with
  | (t, Return a) => let '(t', r) := k a in (t ++ t', r)
  | (t, Raise e) => (t, Raise e)
  end.

(** [try: body / except ...: handler]; what the handler does with the
    exception decides the outcome. *)
Definition try_except {A} (body : M E A) (handler : exn -> M E A) : M E A :=
  match body with
  | (t, Return a) => (t, Return a)
  | (t, Raise e) => let '(t', r) := handler e in (t ++ t', r)
  end.

Definition events {A} (m : M E A) : list E := fst m.
Definition result {A} (m : M E A) : outcome A := snd m.
End Monad.

(** [str.isspace] on one character, for code points below 256. *)
Definition isspace (c : ascii) : bool :=
  let n := nat_of_ascii c in
  ((9 <=? n) && (n <=? 13)) || ((28 <=? n) && (n <=? 32))
  || (n =? 133) || (n =? 160).

Fixpoint lstrip (s : string) : string :=
  match s with
  | EmptyString => EmptyString
  | String c s' => if isspace c then lstrip s' else s
  end.

Fixpoint rstrip (s : string) : string :=
  match s with
  | EmptyString => EmptyString
  | String c s' =>
      match rstrip s' with
      | EmptyString => if isspace c then EmptyString else String c EmptyString
      | r => String c r
      end
  end.

(** [s.strip()] *)
Definition strip (s : string) : string := rstrip (lstrip s).

(** [sep.join(parts)] *)
Fixpoint join (sep : string) (parts : list string) : string :=
  match parts with
  | [] => ""
  | [p] => p
  | p :: rest => p +:+ sep +:+ join sep rest
  end.

(** [s[:n]] for a non-negative [n] *)
Fixpoint str_prefix (n : nat) (s : string) : string :=
  match n, s with
  | S n', String c s' => String c (str_prefix n' s')
  | _, _ => EmptyString
  end.

(** [s[start:stop]] for non-negative [start] and [stop] *)
Fixpoint str_slice (start stop : nat) (s : string) : string :=
  match start, s with
  | S start', String _ s' => str_slice start' (pred stop) s'
  | S _, EmptyString => EmptyString
  | O, _ => str_prefix stop s
  end.

End Py.

Export Py.

Global Instance M_ret {E} : MRet (M E) := @ret E.
Global Instance M_bind {E} : MBind (M E) := fun A B k m => bind m k.

(** Unfolds the monad operations and runs what is determined. *)
Ltac run :=
  unfold mbind, M_bind, bind, mret, M_ret, ret, lift, emit, raise, try_except;
  simpl.

(** ** pandas: the table operations the scripts use

    The model is exact for tables whose column labels are pairwise distinct
    and whose rows have one cell per column ([well_formed]). *)

Module Pandas.

Definition well_formed (df : DataFrame) : bool :=
  bool_decide (NoDup (columns df))
  && forallb (fun r => length r =? length (columns df)) (rows df).

Fixpoint col_index (name : string) (cols : list string) : option nat :=
  match cols with
  | [] => None
  | c :: cols' =>
      if String.eqb c name then Some 0 else S <$> col_index name cols'
  end.

Definition get_cell (i : nat) (r : list cell) : cell := default None (r !! i).

(** [df.empty]: some axis has length zero. *)
Definition empty (df : DataFrame) : bool :=
  match columns df, rows df with
  | [], _ | _, [] => true
  | _, _ => false
  end.

(** [df[name]], the cells of one column in row order. *)
Definition column (name : string) (df : DataFrame) : outcome (list cell) :=
  match col_index name (columns df) with
  | Some i => Return (map (get_cell i) (rows df))
  | None => Raise (KeyError name)
  end.

(** [series.astype(str)] on one cell: a missing value prints as [nan]. *)
Definition astype_str (c : cell) : string :=
  match c with
  | Some s => s
  | None => "nan"
  end.

(** [df[mask]] for a boolean mask in row order. *)
Definition select_rows (mask : list bool) (df : DataFrame) : DataFrame :=
  {| columns := columns df;
     rows := map snd (filter (fun p => fst p = true) (zip mask (rows df))) |}.

(** [df[name] = values]: overwrites the column when the label exists,
    appends a new last column otherwise. *)
Definition set_column (name : string) (values : list cell) (df : DataFrame)
  : DataFrame :=
  match col_index name (columns df) with
  | Some i =>
      {| columns := columns df;
         rows := zip_with (fun r v => <[i := v]> r) (rows df) values |}
  | None =>
      {| columns := columns df ++ [name];
         rows := zip_with (fun r v => r ++ [v]) (rows df) values |}
  end.

(** [df[[n1, n2, ...]]] *)
Fixpoint col_indices (names cols : list string) : outcome (list nat) :=
  match names with
  | [] => Return []
  | n :: names' =>
      match col_index n cols, col_indices names' cols with
      | Some i, Return ixs => Return (i :: ixs)
      | None, _ => Raise (KeyError n)
      | _, Raise e => Raise e
      end
  end.

Definition select_columns (names : list string) (df : DataFrame)
  : outcome DataFrame :=
  match col_indices names (columns df) with
  | Return ixs =>
      Return {| columns := names;
                rows := map (fun r => map (fun i => get_cell i r) ixs) (rows df) |}
  | Raise e => Raise e
  end.

(** [duplicated()] with the default [keep="first"]: a value is marked when
    it occurred before; null values count as equal to each other. *)
Fixpoint duplicated_from {K} `{EqDecision K} (seen l : list K) : list bool :=
  match l with
  | [] => []
  | x :: l' => bool_decide (x ∈ seen) :: duplicated_from (x :: seen) l'
  end.

Definition duplicated {K} `{EqDecision K} (l : list K) : list bool :=
  duplicated_from [] l.

(** Labels that are duplicated after the suffixes were added and were not
    before. *)
Definition suffix_duplicates (old new : list string) : bool :=
  existsb (fun p => fst p && negb (snd p)) (zip (duplicated new) (duplicated old)).

(** One left row joined to the right rows with an equal key, in the right
    table's order; a left row without a match is kept once, with nulls in
    the right table's columns.  Null keys match each other. *)
Definition join_row (i j width : nat) (right : list (list cell))
    (l : list cell) : list (list cell) :=
  match filter (fun r => get_cell j r = get_cell i l) right with
  | [] => [l ++ replicate (width - 1) None]
  | matches => map (fun r => l ++ delete j r) matches
  end.

(** [left.merge(right, on=key, how="left")]: the rows of [left] in their
    order, each joined to its matches.  Columns other than the key that
    carry the same label on both sides get the suffixes [_x] and [_y]. *)
Definition merge (left right : DataFrame) (on : string) : outcome DataFrame :=
  match col_index on (columns left), col_index on (columns right) with
  | Some i, Some j =>
      let overlap c :=
        negb (String.eqb c on)
        && bool_decide (c ∈ columns left) && bool_decide (c ∈ columns right) in
      let llabels := map (fun c => if overlap c then c +:+ "_x" else c) (columns left) in
      let rlabels := map (fun c => if overlap c then c +:+ "_y" else c) (columns right) in
      if suffix_duplicates (columns left) llabels
         || suffix_duplicates (columns right) rlabels
      then Raise MergeError
      else Return {| columns := llabels ++ delete j rlabels;
                     rows := flat_map (join_row i j (length (columns right)) (rows right))
                               (rows left) |}
  | _, _ => Raise (KeyError on)
  end.

(** The entries of [l] at the positions where [mask] holds. *)
Definition select_by {A} (mask : list bool) (l : list A) : list A :=
  map snd (filter (fun p => fst p = true) (zip mask l)).

(** Column [i] holds a value that is not null. *)
Definition has_value (i : nat) (table : list (list cell)) : bool :=
  existsb (fun r => bool_decide (get_cell i r <> None)) table.

(** [df.dropna(axis=1, how="all")]: the columns without any value are
    dropped; in a table without rows that is every column. *)
Definition dropna_columns (df : DataFrame) : DataFrame :=
  let keep := map (fun i => has_value i (rows df)) (seq 0 (length (columns df))) in
  {| columns := select_by keep (columns df);
     rows := map (select_by keep) (rows df) |}.

(** [df.columns = df.columns.str.strip()] *)
Definition strip_columns (df : DataFrame) : DataFrame :=
  {| columns := map strip (columns df); rows := rows df |}.

End Pandas.

Export Pandas.

(** ** fetch_core_transcripts.py *)

Module FetchCoreTranscripts.

Definition LANGS : list string := ["en"; "en-US"; "en-GB"].

(** Calls made on the transcript library. *)
Inductive call : Type :=
  | CallConstructor
  | CallFetch (video_id : cell) (languages : list string)
  | CallList (video_id : cell)
  | CallFindGenerated (languages : list string)
  | CallGeneratedFetch.

(** What a run of the script leaves behind. *)
Inductive event : Type :=
  | Api (c : call)
  | Print (line : string)
  | ToCsv (path : string) (table : DataFrame).

(** Calling into the library: the call is recorded, and its outcome is the
    outcome of the step. *)
Definition perform {A} (c : call) (o : outcome A) : M event A := ([Api c], o).

(** A snippet of a fetched transcript; [text] is [None] for an object
    without a [text] attribute. *)
Record entry : Type := mkEntry { text : option string }.

(** The objects of [youtube_transcript_api], by what their methods do. *)
Record Transcript : Type := mkTranscript {
  transcript_fetch : outcome (list entry)
}.

Record TranscriptList : Type := mkTranscriptList {
  find_generated_transcript : list string -> outcome Transcript
}.

Record Client : Type := mkClient {
  fetch : cell -> list string -> outcome (list entry);
  list_ : cell -> outcome TranscriptList
}.

(** [getattr(entry, "text", "")] *)
Definition getattr_text (e : entry) : string := default "" (text e).

(** The classes named by the first [except] clause. *)
Definition expected_absence (e : exn) : bool :=
  match e with
  | TranscriptsDisabled | NoTranscriptFound | VideoUnavailable => true
  | _ => false
  end.

(** [get_transcript(video_id)]; [YouTubeTranscriptApi] is what calling the
    class does. *)
Definition get_transcript (YouTubeTranscriptApi : outcome Client)
    (video_id : cell) : M event string :=
  api ← perform CallConstructor YouTubeTranscriptApi;
  try_except
    (fetched ← perform (CallFetch video_id LANGS) (fetch api video_id LANGS);
     mret (strip (join " " (map getattr_text fetched))))
    (fun e =>
       if expected_absence e then
         try_except
           (transcripts ← perform (CallList video_id) (list_ api video_id);
            gen ← perform (CallFindGenerated LANGS)
                    (find_generated_transcript transcripts LANGS);
            snippets ← perform CallGeneratedFetch (transcript_fetch gen);
            mret (strip (join " " (map getattr_text snippets))))
           (fun _ => mret "")
       else mret "").

(** The loop over [core_df["video_id"]]; the class is instantiated once per
    video, [YouTubeTranscriptApi k] being what the [k]-th call does. *)
Fixpoint fetch_transcripts (YouTubeTranscriptApi : nat -> outcome Client)
    (k : nat) (video_ids : list cell) : M event (list string) :=
  match video_ids with
  | [] => mret []
  | vid :: rest =>
      t ← get_transcript (YouTubeTranscriptApi k) vid;
      ts ← fetch_transcripts YouTubeTranscriptApi (S k) rest;
      mret (t :: ts)
  end.

(** [main()], from the table [load_core_csv] returned on; [output] is
    [args.output].  The model is exact for well-formed tables, and it
    takes the write of the file to succeed: [main_saving] below is the
    same run with a write that can fail. *)
Definition main (YouTubeTranscriptApi : nat -> outcome Client)
    (output : string) (df : DataFrame) : M event unit :=
  if negb (bool_decide ("Core_video" ∈ columns df)) then
    raise (ValueError "Input CSV must contain a 'Core_video' column.")
  else if negb (bool_decide ("video_id" ∈ columns df)) then
    raise (ValueError "Input CSV must contain a 'video_id' column.")
  else
    flags ← lift (column "Core_video" df);
    let core_df := select_rows (map (fun c => String.eqb (astype_str c) "1") flags) df in
    if empty core_df then
      emit (Print "No rows with Core_video = 1 found.")
    else
      video_ids ← lift (column "video_id" core_df);
      transcripts ← fetch_transcripts YouTubeTranscriptApi 0 video_ids;
      let core_df := set_column "transcript" (map Some transcripts) core_df in
      right ← lift (select_columns ["video_id"; "transcript"] core_df);
      merged ← lift (merge df right "video_id");
      emit (ToCsv output merged);;
      emit (Print ("Saved with transcripts to " +:+ output)).

(** The two ways [load_core_csv] asks [pd.read_csv] to read the file:
    [sep=";"] with the first line skipped, and the defaults. *)
Inductive read_options : Type :=
  | SemicolonSkipFirst
  | Defaults.

(** [load_core_csv(path)]; [read_csv] is what [pd.read_csv] does with the
    file, every column read as strings. *)
Definition load_core_csv (read_csv : string -> read_options -> outcome DataFrame)
    (path : string) : outcome DataFrame :=
  let parsed :=
    match read_csv path SemicolonSkipFirst with
    | Return df => Return df
    | Raise _ => read_csv path Defaults
    end in
  match parsed with
  | Return df => Return (strip_columns (dropna_columns df))
  | Raise e => Raise e
  end.

(** [main()] with its first step: [input] is [args.input]. *)
Definition main_cli (read_csv : string -> read_options -> outcome DataFrame)
    (YouTubeTranscriptApi : nat -> outcome Client)
    (input output : string) : M event unit :=
  df ← lift (load_core_csv read_csv input);
  main YouTubeTranscriptApi output df.

(** [main()] when writing the file can fail: [to_csv path table] is what
    [merged.to_csv(path, ...)] does once it has been handed the table. *)
Definition main_saving (to_csv : string -> DataFrame -> outcome unit)
    (YouTubeTranscriptApi : nat -> outcome Client)
    (output : string) (df : DataFrame) : M event unit :=
  if negb (bool_decide ("Core_video" ∈ columns df)) then
    raise (ValueError "Input CSV must contain a 'Core_video' column.")
  else if negb (bool_decide ("video_id" ∈ columns df)) then
    raise (ValueError "Input CSV must contain a 'video_id' column.")
  else
    flags ← lift (column "Core_video" df);
    let core_df := select_rows (map (fun c => String.eqb (astype_str c) "1") flags) df in
    if empty core_df then
      emit (Print "No rows with Core_video = 1 found.")
    else
      video_ids ← lift (column "video_id" core_df);
      transcripts ← fetch_transcripts YouTubeTranscriptApi 0 video_ids;
      let core_df := set_column "transcript" (map Some transcripts) core_df in
      right ← lift (select_columns ["video_id"; "transcript"] core_df);
      merged ← lift (merge df right "video_id");
      emit (ToCsv output merged);;
      lift (to_csv output merged);;
      emit (Print ("Saved with transcripts to " +:+ output)).

End FetchCoreTranscripts.

(** ** youtube_aigc_sampler.py *)

Module YoutubeAigcSampler.

Definition QUERIES : list string :=
  ["AI tools for content creation";
   "AI tools for content creators";
   "AI workflow for content creation"].

(** [iso_date(2025, 8, 1)] and [iso_date(2025, 11, 22)] *)
Definition START_DATE : string := "2025-08-01T00:00:00Z".
Definition END_DATE : string := "2025-11-22T00:00:00Z".

(** *** The JSON the YouTube Data API answers with

    A field of a JSON object is [None] when the key is absent, [Some None]
    when it holds [null], and [Some (Some s)] when it holds the string [s].
    A statistic is given as the number its decimal string denotes. *)

Definition field : Type := option cell.

(** [obj.get(key)] *)
Definition get (f : field) : cell := default None f.

(** [obj.get(key, dflt)] *)
Definition get_default (f : field) (dflt : string) : cell := default (Some dflt) f.

Record Snippet : Type := mkSnippet {
  channelId : field;
  channelTitle : field;
  publishedAt : field;
  snippet_title : field;
  snippet_description : field
}.

(** [{}] *)
Definition no_snippet : Snippet := mkSnippet None None None None None.

Record SearchItem : Type := mkSearchItem {
  videoId : field;
  search_snippet : option Snippet
}.

Record Statistics : Type := mkStatistics {
  viewCount : option Z;
  likeCount : option Z;
  commentCount : option Z
}.

Definition no_statistics : Statistics := mkStatistics None None None.

Record VideoItem : Type := mkVideoItem {
  item_id : field;
  statistics : option Statistics;
  video_snippet : option Snippet
}.

(** The client [build_client()] returns, by what executing a request does:
    [search_list q max_results published_after published_before] and
    [videos_list id] give the response's [items], or [None] when the
    response has no such key. *)
Record Youtube : Type := mkYoutube {
  search_list : string -> nat -> string -> string -> outcome (option (list SearchItem));
  videos_list : string -> outcome (option (list VideoItem))
}.

(** *** Rows *)

(** The dictionary [search_videos_for_query] builds for one item. *)
Record CandidateRow : Type := mkCandidateRow {
  video_id : cell;
  channel_id : cell;
  channel_title : cell;
  publish_date : cell;
  title : cell;
  description : cell;
  query : string
}.

(** The dictionary [fetch_video_details] builds for one item. *)
Record DetailRow : Type := mkDetailRow {
  detail_video_id : cell;
  view_count : Z;
  like_count : Z;
  comment_count : Z;
  full_title : cell;
  full_description : cell;
  publish_date_full : cell
}.

(** A row of the table after the merge: the candidate's columns, then the
    detail columns, null where no detail row matched.  The three counts
    are given as the numbers the cells denote; pandas holds such a column
    as 64-bit floats once a row is without a match, which is the same
    number below 2^53 and a rounded one above, so nothing is stated about
    the counts beyond that range. *)
Record JoinedRow : Type := mkJoinedRow {
  j_video_id : cell;
  j_channel_id : cell;
  j_channel_title : cell;
  j_publish_date : cell;
  j_title : cell;
  j_description : cell;
  j_query : string;
  j_view_count : option Z;
  j_like_count : option Z;
  j_comment_count : option Z;
  j_full_title : cell;
  j_full_description : cell;
  j_publish_date_full : cell
}.

(** A row of the table that is written: the detail-specific columns are
    gone, [month_bucket] is new. *)
Record OutputRow : Type := mkOutputRow {
  o_video_id : cell;
  o_channel_id : cell;
  o_channel_title : cell;
  o_publish_date : cell;
  o_title : cell;
  o_description : cell;
  o_query : string;
  o_view_count : option Z;
  o_like_count : option Z;
  o_comment_count : option Z;
  month_bucket : cell
}.

Inductive event : Type :=
  | Print (line : string)
  | ToCsv (path : string) (table : list OutputRow).

(** *** API helpers *)

(** One item of the search response as a row; [item["id"]["videoId"]]
    raises when the key is missing. *)
Definition search_row (q : string) (item : SearchItem) : outcome CandidateRow :=
  let snippet := default no_snippet (search_snippet item) in
  match videoId item with
  | None => Raise (KeyError "videoId")
  | Some vid =>
      Return {| video_id := vid;
                channel_id := get (channelId snippet);
                channel_title := get (channelTitle snippet);
                publish_date := get (publishedAt snippet);
                title := get (snippet_title snippet);
                description := get_default (snippet_description snippet) "";
                query := q |}
  end.

(** A loop that appends [f x] for each [x] and stops at the first
    exception. *)
Fixpoint for_each {A B} (f : A -> outcome B) (l : list A) : outcome (list B) :=
  match l with
  | [] => Return []
  | x :: l' =>
      match f x with
      | Raise e => Raise e
      | Return y =>
          match for_each f l' with
          | Raise e => Raise e
          | Return ys => Return (y :: ys)
          end
      end
  end.

Definition search_videos_for_query (youtube : Youtube) (q : string)
    (max_results : nat) : outcome (list CandidateRow) :=
  match search_list youtube q max_results START_DATE END_DATE with
  | Raise e => Raise e
  | Return response_items => for_each (search_row q) (default [] response_items)
  end.

(** One item of the videos response as a row. *)
Definition detail_row (item : VideoItem) : DetailRow :=
  let s := default no_statistics (statistics item) in
  let snippet := default no_snippet (video_snippet item) in
  {| detail_video_id := get (item_id item);
     view_count := default 0%Z (viewCount s);
     like_count := default 0%Z (likeCount s);
     comment_count := default 0%Z (commentCount s);
     full_title := get_default (snippet_title snippet) "";
     full_description := get_default (snippet_description snippet) "";
     publish_date_full := get_default (publishedAt snippet) "" |}.

(** [video_ids[i : i + 50]] for [i] in [range(0, len(video_ids), 50)] *)
Fixpoint batches {A} (fuel : nat) (l : list A) : list (list A) :=
  match fuel, l with
  | S fuel', _ :: _ => take 50 l :: batches fuel' (drop 50 l)
  | _, _ => []
  end.

(** [",".join(batch)]; raises when an element is not a string. *)
Definition join_ids (batch : list cell) : outcome string :=
  match for_each (fun c : cell =>
                    match c with
                    | Some s => Return s
                    | None => Raise (OtherException "TypeError")
                    end) batch with
  | Return ids => Return (join "," ids)
  | Raise e => Raise e
  end.

Definition fetch_batch (youtube : Youtube) (batch : list cell)
  : outcome (list DetailRow) :=
  match join_ids batch with
  | Raise e => Raise e
  | Return ids =>
      match videos_list youtube ids with
      | Raise e => Raise e
      | Return response_items => Return (map detail_row (default [] response_items))
      end
  end.

(** The rows of the table [fetch_video_details] returns. *)
Definition fetch_video_details (youtube : Youtube) (video_ids : list cell)
  : outcome (list DetailRow) :=
  match for_each (fetch_batch youtube) (batches (length video_ids) video_ids) with
  | Raise e => Raise e
  | Return per_batch => Return (concat per_batch)
  end.

(** *** The steps of [main] *)

(** [df.drop_duplicates(subset="video_id")]: the rows whose identifier is
    not marked by [duplicated]. *)
Definition drop_duplicates (df : list CandidateRow) : list CandidateRow :=
  map snd (filter (fun p => fst p = false) (zip (duplicated (map video_id df)) df)).

Definition joined (c : CandidateRow) (d : option DetailRow) : JoinedRow :=
  {| j_video_id := video_id c;
     j_channel_id := channel_id c;
     j_channel_title := channel_title c;
     j_publish_date := publish_date c;
     j_title := title c;
     j_description := description c;
     j_query := query c;
     j_view_count := view_count <$> d;
     j_like_count := like_count <$> d;
     j_comment_count := comment_count <$> d;
     j_full_title := d ≫= full_title;
     j_full_description := d ≫= full_description;
     j_publish_date_full := d ≫= publish_date_full |}.

(** [df.merge(details_df, on="video_id", how="left")].  A table built from
    an empty list of rows has no columns, so the key is missing. *)
Definition merge_details (df : list CandidateRow) (details_df : list DetailRow)
  : outcome (list JoinedRow) :=
  match details_df with
  | [] => Raise (KeyError "video_id")
  | _ =>
      Return (flat_map
                (fun c =>
                   match filter (fun d => detail_video_id d = video_id c) details_df with
                   | [] => [joined c None]
                   | matches => map (fun d => joined c (Some d)) matches
                   end) df)
  end.

(** [series.fillna(other)], position by position. *)
Definition fillna (series other : list cell) : list cell :=
  zip_with (fun v w => match v with Some _ => v | None => w end) series other.

Definition set_description (r : JoinedRow) (v : cell) : JoinedRow :=
  mkJoinedRow (j_video_id r) (j_channel_id r) (j_channel_title r)
    (j_publish_date r) (j_title r) v (j_query r) (j_view_count r)
    (j_like_count r) (j_comment_count r) (j_full_title r)
    (j_full_description r) (j_publish_date_full r).

Definition set_title (r : JoinedRow) (v : cell) : JoinedRow :=
  mkJoinedRow (j_video_id r) (j_channel_id r) (j_channel_title r)
    (j_publish_date r) v (j_description r) (j_query r) (j_view_count r)
    (j_like_count r) (j_comment_count r) (j_full_title r)
    (j_full_description r) (j_publish_date_full r).

Definition set_publish_date (r : JoinedRow) (v : cell) : JoinedRow :=
  mkJoinedRow (j_video_id r) (j_channel_id r) (j_channel_title r)
    v (j_title r) (j_description r) (j_query r) (j_view_count r)
    (j_like_count r) (j_comment_count r) (j_full_title r)
    (j_full_description r) (j_publish_date_full r).

(** The three assignments that prefer the detail columns. *)
Definition reconcile (df : list JoinedRow) : list JoinedRow :=
  let df := zip_with set_description df
              (fillna (map j_full_description df) (map j_description df)) in
  let df := zip_with set_title df
              (fillna (map j_full_title df) (map j_title df)) in
  zip_with set_publish_date df
    (fillna (map j_publish_date_full df) (map j_publish_date df)).

(** [series.str.slice(0, 7)] on one cell; a null stays null. *)
Definition str_slice_0_7 (c : cell) : cell := str_slice 0 7 <$> c.

(** [df.drop(columns=[...])] followed by the [month_bucket] assignment. *)
Definition add_month_bucket (df : list JoinedRow) : list OutputRow :=
  zip_with
    (fun r b =>
       mkOutputRow (j_video_id r) (j_channel_id r) (j_channel_title r)
         (j_publish_date r) (j_title r) (j_description r) (j_query r)
         (j_view_count r) (j_like_count r) (j_comment_count r) b)
    df (map str_slice_0_7 (map j_publish_date df)).

(** The first loop of [main]. *)
Fixpoint search_all (youtube : Youtube) (queries : list string)
  : M event (list CandidateRow) :=
  match queries with
  | [] => mret []
  | q :: queries' =>
      emit (Print ("Searching for query: " +:+ q));;
      found ← lift (search_videos_for_query youtube q 40);
      more ← search_all youtube queries';
      mret (found ++ more)
  end.

(** [main()]; [youtube] is the client [build_client()] returned. *)
Definition main (youtube : Youtube) : M event unit :=
  all_rows ← search_all youtube QUERIES;
  let df := all_rows in
  emit (Print ("Raw candidates (before dedupe): " +:+ pretty (length df)));;
  let df := drop_duplicates df in
  emit (Print ("After dedupe: " +:+ pretty (length df)));;
  match df with
  | [] => emit (Print "No videos found in the specified window/queries.")
  | _ =>
      details_df ← lift (fetch_video_details youtube (map video_id df));
      df ← lift (merge_details df details_df);
      let df := reconcile df in
      let df := add_month_bucket df in
      emit (ToCsv "youtube_candidates_basic.csv" df);;
      emit (Print "Saved to youtube_candidates_basic.csv")
  end.

(** *** Dates *)

Definition is_leap (y : Z) : bool :=
  ((y mod 4 =? 0) && (negb (y mod 100 =? 0) || (y mod 400 =? 0)))%Z.

Definition days_in_month (y m : Z) : Z :=
  (if m =? 2 then (if is_leap y then 29 else 28)
   else if (m =? 4) || (m =? 6) || (m =? 9) || (m =? 11) then 30
   else 31)%Z.

(** [%0<width>d] for a number that is not negative *)
Definition zero_pad (width : nat) (n : Z) : string :=
  let digits := pretty n in
  String.concat "" (replicate (width - String.length digits) "0") +:+ digits.

(** The number fits the C [int] that [datetime] reads its arguments into. *)
Definition fits_c_int (n : Z) : bool :=
  ((- 2147483648 <=? n) && (n <=? 2147483647))%Z.

(** [iso_date(y, m, d)]: [datetime(y, m, d)] reads its arguments as C
    integers, which raises [OverflowError] for a number that does not
    fit, then checks the date; [isoformat("T")] prints it with the time
    of midnight. *)
Definition iso_date (y m d : Z) : outcome string :=
  if negb (fits_c_int y && fits_c_int m && fits_c_int d) then
    Raise (OtherException "OverflowError")
  else if negb ((1 <=? y) && (y <=? 9999))%Z then
    Raise (ValueError "year is out of range")
  else if negb ((1 <=? m) && (m <=? 12))%Z then
    Raise (ValueError "month must be in 1..12")
  else if negb ((1 <=? d) && (d <=? days_in_month y m))%Z then
    Raise (ValueError "day is out of range for month")
  else
    Return (zero_pad 4 y +:+ "-" +:+ zero_pad 2 m +:+ "-" +:+ zero_pad 2 d
            +:+ "T00:00:00" +:+ "Z").

End YoutubeAigcSampler.

(** ** Vocabulary of the statements *)

Module Spec.
Import FetchCoreTranscripts.

(** Every character is whitespace. *)
Fixpoint blank (s : string) : bool :=
  match s with
  | EmptyString => true
  | String c s' => isspace c && blank s'
  end.

Definition starts_with_space (s : string) : bool :=
  match s with
  | EmptyString => false
  | String c _ => isspace c
  end.

Fixpoint ends_with_space (s : string) : bool :=
  match s with
  | EmptyString => false
  | String c EmptyString => isspace c
  | String _ s' => ends_with_space s'
  end.

(** [t] is [s] without its leading and trailing whitespace. *)
Definition trimmed_of (s t : string) : Prop :=
  (exists pre post, s = pre +:+ t +:+ post /\ blank pre = true /\ blank post = true)
  /\ starts_with_space t = false /\ ends_with_space t = false.

(** The calls that make up the fallback tier. *)
Definition fallback_call (c : call) : bool :=
  match c with
  | CallList _ | CallFindGenerated _ | CallGeneratedFetch => true
  | CallConstructor | CallFetch _ _ => false
  end.

Definition fallback_attempted {A} (m : M event A) : Prop :=
  exists c, fallback_call c = true /\ Api c ∈ events m.

(** The fallback tier, once entered, ends in an exception. *)
Inductive fallback_fails (api : Client) (video_id : cell) : Prop :=
  | list_raises e :
      list_ api video_id = Raise e -> fallback_fails api video_id
  | find_raises transcripts e :
      list_ api video_id = Return transcripts ->
      find_generated_transcript transcripts LANGS = Raise e ->
      fallback_fails api video_id
  | generated_fetch_raises transcripts gen e :
      list_ api video_id = Return transcripts ->
      find_generated_transcript transcripts LANGS = Return gen ->
      transcript_fetch gen = Raise e ->
      fallback_fails api video_id.

(** One of the two tiers hands back the snippets [snippets]. *)
Inductive tier_succeeds (api : Client) (video_id : cell) (snippets : list entry) : Prop :=
  | primary_succeeds :
      fetch api video_id LANGS = Return snippets ->
      tier_succeeds api video_id snippets
  | fallback_succeeds e transcripts gen :
      fetch api video_id LANGS = Raise e ->
      expected_absence e = true ->
      list_ api video_id = Return transcripts ->
      find_generated_transcript transcripts LANGS = Return gen ->
      transcript_fetch gen = Return snippets ->
      tier_succeeds api video_id snippets.

(** A client whose primary tier answers with the given fragments. *)
Definition primary_client (fragments : list string) : Client :=
  {| fetch := fun _ _ => Return (map (fun s => mkEntry (Some s)) fragments);
     list_ := fun _ => Raise (OtherException "unused") |}.

(** A client whose primary tier raises [e] and whose fallback tier answers
    with the given fragments. *)
Definition fallback_client (e : exn) (fragments : list string) : Client :=
  {| fetch := fun _ _ => Raise e;
     list_ := fun _ =>
       Return {| find_generated_transcript := fun _ =>
         Return {| transcript_fetch :=
           Return (map (fun s => mkEntry (Some s)) fragments) |} |} |}.

(** A client both of whose tiers raise. *)
Definition failing_client (e1 e2 : exn) : Client :=
  {| fetch := fun _ _ => Raise e1; list_ := fun _ => Raise e2 |}.

(** The text built from the snippets of the tier that succeeded. *)
Definition text_of (snippets : list entry) : string :=
  strip (join " " (map getattr_text snippets)).

(** The cell of row [r] in the column labelled [name]. *)
Definition cell_of (name : string) (df : DataFrame) (r : list cell) : cell :=
  match col_index name (columns df) with
  | Some i => get_cell i r
  | None => None
  end.

(** The row is selected for transcript fetching. *)
Definition flagged (df : DataFrame) (r : list cell) : bool :=
  String.eqb (astype_str (cell_of "Core_video" df r)) "1".

Definition core_rows (df : DataFrame) : list (list cell) :=
  filter (fun r => flagged df r = true) (rows df).

Definition core_ids (df : DataFrame) : list cell :=
  map (cell_of "video_id" df) (core_rows df).

(** What [get_transcript] returns, when it returns. *)
Definition transcript_of (ctor : outcome Client) (video_id : cell) : string :=
  match result (get_transcript ctor video_id) with
  | Return s => s
  | Raise _ => ""
  end.

(** The transcripts of the selected rows, in row order; the [k]-th
    selected row is served by the [k]-th instance of the client. *)
Definition transcripts_from (YouTubeTranscriptApi : nat -> outcome Client)
    (k : nat) (video_ids : list cell) : list string :=
  imap (fun n vid => transcript_of (YouTubeTranscriptApi (k + n)) vid) video_ids.

(** The {identifier, transcript} pairs handed to the merge. *)
Definition resolved (YouTubeTranscriptApi : nat -> outcome Client)
    (df : DataFrame) : list (cell * string) :=
  zip (core_ids df) (transcripts_from YouTubeTranscriptApi 0 (core_ids df)).

(** The output rows that stem from the input row [r]: one per pair with
    [r]'s identifier, or one with a null transcript when there is none. *)
Definition attach (df : DataFrame) (pairs : list (cell * string))
    (r : list cell) : list (list cell) :=
  match filter (fun p => fst p = cell_of "video_id" df r) pairs with
  | [] => [r ++ [None]]
  | matches => map (fun p => r ++ [Some (snd p)]) matches
  end.

(** The labels of the merged table: the input's labels and [transcript], or,
    when the input has a [transcript] column of its own, the two columns
    told apart by the suffixes of the merge. *)
Definition merged_labels (cols : list string) : list string :=
  if bool_decide ("transcript" ∈ cols)
  then map (fun c => if String.eqb c "transcript" then "transcript_x" else c) cols
       ++ ["transcript_y"]
  else cols ++ ["transcript"].

(** Every instantiation of the client class succeeds. *)
Definition clients_available (YouTubeTranscriptApi : nat -> outcome Client) : Prop :=
  forall k, exists api, YouTubeTranscriptApi k = Return api.

(** The table [main] hands to [to_csv], if it gets that far. *)
Definition written {A} (m : M event A) : list DataFrame :=
  omap (fun ev => match ev with ToCsv _ t => Some t | _ => None end) (events m).

(** A table in which an unselected row carries the identifier of a
    selected one. *)
Definition shared_id_table : DataFrame :=
  {| columns := ["video_id"; "Core_video"];
     rows := [[Some "abc123"; Some "1"]; [Some "abc123"; Some "0"]] |}.

(** A table in which two selected rows carry the same identifier. *)
Definition repeated_id_table : DataFrame :=
  {| columns := ["video_id"; "Core_video"; "note"];
     rows := [[Some "abc123"; Some "1"; Some "first"];
              [Some "abc123"; Some "1"; Some "second"]] |}.

(** The table of the three-row scenario: two rows selected. *)
Definition scenario_table : DataFrame :=
  {| columns := ["video_id"; "Core_video"; "note"];
     rows := [[Some "v1"; Some "1"; Some "keep"];
              [Some "v2"; Some "0"; None];
              [Some "v3"; Some "1"; Some "keep"]] |}.

(** The first instance of the client resolves to [X], every later one to
    the empty string. *)
Definition scenario_api (k : nat) : outcome Client :=
  match k with
  | 0 => Return (primary_client ["X"])
  | _ => Return (failing_client (OtherException "IOError") (OtherException "IOError"))
  end.

End Spec.

Export Spec.

Module SamplerSpec.
Import YoutubeAigcSampler.

(** Deduplication with a set of identifiers already seen. *)
Definition keep_unseen (seen : list cell) (df : list CandidateRow)
  : list CandidateRow :=
  map snd (filter (fun p => fst p = false)
             (zip (duplicated_from seen (map video_id df)) df)).

(** The detail value when it is not null, the candidate value otherwise. *)
Definition coalesce (detail candidate : cell) : cell :=
  match detail with
  | Some v => Some v
  | None => candidate
  end.

(** The detail row [d] is one that the join pairs with the candidate [c];
    [None] stands for a candidate without a matching detail row. *)
Definition matched (details_df : list DetailRow) (c : CandidateRow)
    (d : option DetailRow) : Prop :=
  match d with
  | Some d' => d' ∈ details_df /\ detail_video_id d' = video_id c
  | None => forall d', d' ∈ details_df -> detail_video_id d' <> video_id c
  end.

(** The text fields of the output row [o] are those of the candidate [c]
    reconciled with [d]. *)
Definition reconciled (c : CandidateRow) (d : option DetailRow)
    (o : OutputRow) : Prop :=
  o_description o = coalesce (d ≫= full_description) (description c)
  /\ o_title o = coalesce (d ≫= full_title) (title c)
  /\ o_publish_date o = coalesce (d ≫= publish_date_full) (publish_date c)
  /\ o_video_id o = video_id c
  /\ o_channel_id o = channel_id c
  /\ o_channel_title o = channel_title c
  /\ o_query o = query c.

(** The candidates paired with their detail rows, as the left join lists
    them. *)
Definition pairing (df : list CandidateRow) (details_df : list DetailRow)
  : list (CandidateRow * option DetailRow) :=
  flat_map
    (fun c =>
       match filter (fun d => detail_video_id d = video_id c) details_df with
       | [] => [(c, None)]
       | matches => map (fun d => (c, Some d)) matches
       end) df.

(** One row through the three coalescing assignments. *)
Definition reconcile_row (r : JoinedRow) : JoinedRow :=
  let r := set_description r (coalesce (j_full_description r) (j_description r)) in
  let r := set_title r (coalesce (j_full_title r) (j_title r)) in
  set_publish_date r (coalesce (j_publish_date_full r) (j_publish_date r)).

(** One row through the column drop and the bucket assignment. *)
Definition bucket_row (r : JoinedRow) : OutputRow :=
  mkOutputRow (j_video_id r) (j_channel_id r) (j_channel_title r)
    (j_publish_date r) (j_title r) (j_description r) (j_query r)
    (j_view_count r) (j_like_count r) (j_comment_count r)
    (str_slice_0_7 (j_publish_date r)).

(** The tables a run hands to [to_csv]. *)
Definition written_candidates {A} (m : M event A) : list (list OutputRow) :=
  omap (fun ev => match ev with ToCsv _ t => Some t | _ => None end) (events m).

Definition snippet_of (title description published : string) : option Snippet :=
  Some (mkSnippet (Some (Some "UC1")) (Some (Some "Channel"))
          (Some (Some published)) (Some (Some title)) (Some (Some description))).

(** Two queries return the video [abc123]; the details request knows it. *)
Definition scenario_youtube : Youtube :=
  {| search_list := fun q _ _ _ =>
       if String.eqb q "AI tools for content creation" then
         Return (Some [mkSearchItem (Some (Some "abc123"))
                         (snippet_of "short" "truncated" "2025-09-01T08:00:00Z")])
       else if String.eqb q "AI tools for content creators" then
         Return (Some [mkSearchItem (Some (Some "abc123"))
                         (snippet_of "short" "truncated" "2025-09-01T08:00:00Z");
                       mkSearchItem (Some (Some "xyz789"))
                         (snippet_of "other" "text" "2025-10")])
       else Return None;
     videos_list := fun _ =>
       Return (Some [mkVideoItem (Some (Some "abc123"))
                       (Some (mkStatistics (Some 10%Z) (Some 2%Z) None))
                       (snippet_of "full title" "full description"
                          "2025-09-01T08:00:00Z")]) |}.

(** The rows the search loop gathers from [scenario_youtube]. *)
Definition scenario_rows : list CandidateRow :=
  Eval vm_compute in
    match result (search_all scenario_youtube QUERIES) with
    | Return all_rows => all_rows
    | Raise _ => []
    end.

(** The first of them. *)
Definition scenario_first : CandidateRow :=
  Eval vm_compute in
    match scenario_rows with
    | r :: _ => r
    | [] => mkCandidateRow None None None None None None ""
    end.

(** The detail rows fetched for them. *)
Definition scenario_details : list DetailRow :=
  Eval vm_compute in
    match fetch_video_details scenario_youtube
            (map video_id (drop_duplicates scenario_rows)) with
    | Return details_df => details_df
    | Raise _ => []
    end.

(** Every query answers without items. *)
Definition empty_youtube : Youtube :=
  {| search_list := fun _ _ _ _ => Return (Some []);
     videos_list := fun _ => Return None |}.

End SamplerSpec.

Export SamplerSpec.

(** ** Further vocabulary *)

Module MoreSpec.
Import FetchCoreTranscripts.

(** The five calls of a full resolution, in the order they are made. *)
Definition full_call_sequence (video_id : cell) : list event :=
  [Api CallConstructor; Api (CallFetch video_id LANGS); Api (CallList video_id);
   Api (CallFindGenerated LANGS); Api CallGeneratedFetch].

(** The identifiers the primary fetch was called with, in call order. *)
Definition fetched_ids (evs : list event) : list cell :=
  omap (fun ev => match ev with Api (CallFetch v _) => Some v | _ => None end) evs.

(** How often the client class was instantiated. *)
Definition is_construction (ev : event) : bool :=
  match ev with
  | Api CallConstructor => true
  | _ => false
  end.

Definition constructions (evs : list event) : nat :=
  length (filter (fun ev => is_construction ev = true) evs).

(** How many of the first [i] positions of the mask are kept. *)
Definition kept_before (mask : list bool) (i : nat) : nat :=
  length (filter (fun b => b = true) (take i mask)).

(** [pd.read_csv] hands [df] to [load_core_csv]: the first reading
    succeeds with it, or the first raises and the second succeeds with it. *)
Definition parsed (read_csv : string -> read_options -> outcome DataFrame)
    (path : string) (df : DataFrame) : Prop :=
  read_csv path SemicolonSkipFirst = Return df
  \/ ((exists e, read_csv path SemicolonSkipFirst = Raise e)
      /\ read_csv path Defaults = Return df).

(** A parser that reads the same table whatever the options. *)
Definition reads (df : DataFrame) : string -> read_options -> outcome DataFrame :=
  fun _ _ => Return df.

(** A sheet exported with a trailing delimiter and padded labels. *)
Definition exported_sheet : DataFrame :=
  {| columns := [" video_id"; "Core_video "; "Unnamed: 2"];
     rows := [[Some "v1"; Some "1"; None]; [Some "v2"; None; None]] |}.

(** A sheet on which nobody has filled in the flag column yet. *)
Definition unflagged_sheet : DataFrame :=
  {| columns := ["video_id"; "Core_video"];
     rows := [[Some "v1"; None]; [Some "v2"; None]] |}.

(** The second instantiation of the client class raises. *)
Definition second_client_fails (k : nat) : outcome Client :=
  match k with
  | 1 => Raise (OtherException "OSError")
  | _ => Return (primary_client ["X"])
  end.

(** The searches find a video, but the details request knows none. *)
Definition forgetful_youtube : YoutubeAigcSampler.Youtube :=
  {| YoutubeAigcSampler.search_list := fun _ _ _ _ =>
       Return (Some [YoutubeAigcSampler.mkSearchItem (Some (Some "abc123")) None]);
     YoutubeAigcSampler.videos_list := fun _ => Return (Some []) |}.

(** The number a string of decimal digits denotes. *)
Fixpoint digits_value_from (acc : Z) (s : string) : Z :=
  match s with
  | EmptyString => acc
  | String c s' =>
      digits_value_from (10 * acc + (Z.of_nat (nat_of_ascii c) - 48))%Z s'
  end.

Definition digits_value (s : string) : Z := digits_value_from 0 s.

(** The triple names a day of the proleptic Gregorian calendar that
    [datetime] accepts. *)
Definition valid_date (y m d : Z) : Prop :=
  (1 <= y <= 9999 /\ 1 <= m <= 12
   /\ 1 <= d <= YoutubeAigcSampler.days_in_month y m)%Z.

End MoreSpec.

Export MoreSpec.

(** ** Strings *)

Section Strings.

Lemma lstrip_split s :
  exists pre, s = pre +:+ lstrip s /\ blank pre = true.
Proof.
  induction s as [|c s [pre [Heq Hb]]]; simpl.
  - by exists "".
  - destruct (isspace c) eqn:Hc.
    + exists (String c pre). simpl. rewrite Hc, Hb. split; [exact (f_equal (String c) Heq)|done].
    + by exists "".
Qed.

Lemma lstrip_head s : starts_with_space (lstrip s) = false.
Proof.
  induction s as [|c s IH]; simpl; [done|].
  destruct (isspace c) eqn:Hc; [done|]. simpl. by rewrite Hc.
Qed.

Lemma rstrip_split s :
  exists post, s = rstrip s +:+ post /\ blank post = true.
Proof.
  induction s as [|c s [post [Heq Hb]]]; simpl.
  - by exists "".
  - destruct (rstrip s) as [|c' r] eqn:Hr.
    + destruct (isspace c) eqn:Hc.
      * exists (String c post). simpl. rewrite Hc, Hb.
        split; [exact (f_equal (String c) Heq)|done].
      * exists post. split; [exact (f_equal (String c) Heq)|done].
    + exists post. split; [exact (f_equal (String c) Heq)|done].
Qed.

Lemma rstrip_tail s : ends_with_space (rstrip s) = false.
Proof.
  induction s as [|c s IH]; simpl; [done|].
  destruct (rstrip s) as [|c' r] eqn:Hr.
  - destruct (isspace c) eqn:Hc; simpl; [done|by rewrite Hc].
  - done.
Qed.

Lemma rstrip_head s :
  starts_with_space s = false -> starts_with_space (rstrip s) = false.
Proof.
  destruct s as [|c s]; simpl; [done|]. intros Hc.
  destruct (rstrip s); [by rewrite Hc|done].
Qed.

(** [strip] removes exactly the whitespace at the two ends. *)
Lemma strip_trimmed s : trimmed_of s (strip s).
Proof.
  unfold strip. destruct (lstrip_split s) as [pre [Hpre Hb]].
  destruct (rstrip_split (lstrip s)) as [post [Hpost Hb']].
  repeat split.
  - exists pre, post. split; [|done]. by rewrite <- Hpost.
  - apply rstrip_head, lstrip_head.
  - apply rstrip_tail.
Qed.

End Strings.

(** ** Transcript resolution *)

Section Resolver.
Import FetchCoreTranscripts.

Lemma constructor_raises e vid :
  get_transcript (Raise e) vid = ([Api CallConstructor], Raise e).
Proof. reflexivity. Qed.

Lemma primary_returns api vid snippets :
  fetch api vid LANGS = Return snippets ->
  get_transcript (Return api) vid
  = ([Api CallConstructor; Api (CallFetch vid LANGS)],
     Return (text_of snippets)).
Proof. intros H. unfold get_transcript, perform. run. by rewrite H. Qed.

Lemma primary_raises_unexpected api vid e :
  fetch api vid LANGS = Raise e ->
  expected_absence e = false ->
  get_transcript (Return api) vid
  = ([Api CallConstructor; Api (CallFetch vid LANGS)], Return "").
Proof. intros H He. unfold get_transcript, perform. run. by rewrite H, He. Qed.

Lemma fallback_list_raises api vid e e' :
  fetch api vid LANGS = Raise e ->
  expected_absence e = true ->
  list_ api vid = Raise e' ->
  get_transcript (Return api) vid
  = ([Api CallConstructor; Api (CallFetch vid LANGS); Api (CallList vid)],
     Return "").
Proof. intros H He Hl. unfold get_transcript, perform. run. by rewrite H, He, Hl. Qed.

Lemma fallback_find_raises api vid e transcripts e' :
  fetch api vid LANGS = Raise e ->
  expected_absence e = true ->
  list_ api vid = Return transcripts ->
  find_generated_transcript transcripts LANGS = Raise e' ->
  get_transcript (Return api) vid
  = ([Api CallConstructor; Api (CallFetch vid LANGS); Api (CallList vid);
      Api (CallFindGenerated LANGS)],
     Return "").
Proof. intros H He Hl Hf. unfold get_transcript, perform. run. by rewrite H, He, Hl, Hf. Qed.

Lemma fallback_fetch_raises api vid e transcripts gen e' :
  fetch api vid LANGS = Raise e ->
  expected_absence e = true ->
  list_ api vid = Return transcripts ->
  find_generated_transcript transcripts LANGS = Return gen ->
  transcript_fetch gen = Raise e' ->
  get_transcript (Return api) vid
  = ([Api CallConstructor; Api (CallFetch vid LANGS); Api (CallList vid);
      Api (CallFindGenerated LANGS); Api CallGeneratedFetch],
     Return "").
Proof. intros H He Hl Hf Hg. unfold get_transcript, perform. run. by rewrite H, He, Hl, Hf, Hg. Qed.

Lemma fallback_returns api vid e transcripts gen snippets :
  fetch api vid LANGS = Raise e ->
  expected_absence e = true ->
  list_ api vid = Return transcripts ->
  find_generated_transcript transcripts LANGS = Return gen ->
  transcript_fetch gen = Return snippets ->
  get_transcript (Return api) vid
  = ([Api CallConstructor; Api (CallFetch vid LANGS); Api (CallList vid);
      Api (CallFindGenerated LANGS); Api CallGeneratedFetch],
     Return (text_of snippets)).
Proof. intros H He Hl Hf Hg. unfold get_transcript, perform. run. by rewrite H, He, Hl, Hf, Hg. Qed.

(** With a client at hand the procedure always returns a string. *)
Lemma get_transcript_returns api vid :
  exists s, result (get_transcript (Return api) vid) = Return s.
Proof.
  destruct (fetch api vid LANGS) as [snippets|e] eqn:H.
  { erewrite primary_returns; eauto. }
  destruct (expected_absence e) eqn:He.
  2: { erewrite primary_raises_unexpected; eauto. }
  destruct (list_ api vid) as [transcripts|e1] eqn:Hl.
  2: { erewrite fallback_list_raises; eauto. }
  destruct (find_generated_transcript transcripts LANGS) as [gen|e2] eqn:Hf.
  2: { erewrite fallback_find_raises; eauto. }
  destruct (transcript_fetch gen) as [snippets|e3] eqn:Hg.
  - erewrite fallback_returns; eauto.
  - erewrite fallback_fetch_raises; eauto.
Qed.

Lemma expected_absence_spec e :
  expected_absence e = true
  <-> e = TranscriptsDisabled \/ e = NoTranscriptFound \/ e = VideoUnavailable.
Proof.
  split.
  - destruct e; simpl; intros; try discriminate; auto.
  - intros [->|[->| ->]]; reflexivity.
Qed.

(** C1, as stated, fails: the class is instantiated before the [try], so
    an exception raised by the constructor leaves [get_transcript]. *)
Lemma get_transcript_constructor_exception_propagates :
  result (get_transcript (Raise (OtherException "RuntimeError")) (Some "abc123"))
  = Raise (OtherException "RuntimeError")
  /\ ~ exists s,
       result (get_transcript (Raise (OtherException "RuntimeError")) (Some "abc123"))
       = Return s.
Proof.
  split; [reflexivity|]. intros [s Hs]. discriminate Hs.
Qed.

(** C1, amended: once the constructor has returned a client, for every
    video identifier and every behaviour of the two fetch tiers
    [get_transcript] returns a string and raises nothing; the string is
    empty whenever the primary fetch raises and the fallback tier raises
    too, and whenever the primary fetch raises an exception outside the
    three expected ones. *)
Theorem get_transcript_total_after_construction (api : Client) (vid : cell) :
  exists s,
    result (get_transcript (Return api) vid) = Return s
    /\ (forall e, fetch api vid LANGS = Raise e -> fallback_fails api vid -> s = "")
    /\ (forall e, fetch api vid LANGS = Raise e -> expected_absence e = false -> s = "").
Proof.
  destruct (get_transcript_returns api vid) as [s Hs]. exists s.
  split; [done|]. split.
  - intros e H Hfail.
    destruct (expected_absence e) eqn:He.
    2: { erewrite primary_raises_unexpected in Hs; eauto.
         by injection Hs. }
    destruct Hfail as [e' Hl|transcripts e' Hl Hf|transcripts gen e' Hl Hf Hg].
    + erewrite fallback_list_raises in Hs; eauto. by injection Hs.
    + erewrite fallback_find_raises in Hs; eauto. by injection Hs.
    + erewrite fallback_fetch_raises in Hs; eauto. by injection Hs.
  - intros e H He.
    erewrite primary_raises_unexpected in Hs; eauto. by injection Hs.
Qed.

Lemma get_transcript_total_after_construction_witness :
  result (get_transcript (Return (failing_client NoTranscriptFound (OtherException "IOError")))
            (Some "abc123")) = Return "".
Proof.
  destruct (get_transcript_total_after_construction
              (failing_client NoTranscriptFound (OtherException "IOError"))
              (Some "abc123")) as [s [Hs [Hboth _]]].
  rewrite Hs. f_equal.
  apply (Hboth NoTranscriptFound); [reflexivity|].
  eapply list_raises. reflexivity.
Defined.

(** C2: the fallback tier is entered exactly when the primary fetch was
    made and raised one of [TranscriptsDisabled], [NoTranscriptFound],
    [VideoUnavailable]; on any other exception of the primary fetch the
    result is the empty string and no call of the fallback tier is made. *)
Theorem fallback_iff_expected_absence (ctor : outcome Client) (vid : cell) :
  (fallback_attempted (get_transcript ctor vid)
   <-> exists api e,
         ctor = Return api /\ fetch api vid LANGS = Raise e
         /\ (e = TranscriptsDisabled \/ e = NoTranscriptFound \/ e = VideoUnavailable))
  /\ (forall api e,
        ctor = Return api -> fetch api vid LANGS = Raise e ->
        ~ (e = TranscriptsDisabled \/ e = NoTranscriptFound \/ e = VideoUnavailable) ->
        get_transcript ctor vid
        = ([Api CallConstructor; Api (CallFetch vid LANGS)], Return "")).
Proof.
  assert (Hno : forall (o : outcome string),
             ~ fallback_attempted
                 (([Api CallConstructor; Api (CallFetch vid LANGS)], o) : M event string)).
  { intros o [c [Hc Hin]]. unfold events in Hin. simpl in Hin.
    set_unfold in Hin. destruct Hin as [Hin|[Hin|[]]]; inversion Hin; subst;
      discriminate Hc. }
  split.
  - split.
    + intros Hfb. destruct ctor as [api|e0].
      2: { destruct Hfb as [c [Hc Hin]]. unfold events in Hin. simpl in Hin.
           set_unfold in Hin. destruct Hin as [Hin|[]]. inversion Hin; subst.
           discriminate Hc. }
      destruct (fetch api vid LANGS) as [snippets|e] eqn:H.
      { erewrite primary_returns in Hfb; eauto. by apply Hno in Hfb. }
      destruct (expected_absence e) eqn:He.
      * exists api, e. by rewrite <- expected_absence_spec.
      * erewrite primary_raises_unexpected in Hfb; eauto. by apply Hno in Hfb.
    + intros [api [e [-> [H He]]]]. apply expected_absence_spec in He.
      exists (CallList vid). split; [reflexivity|].
      destruct (list_ api vid) as [transcripts|e1] eqn:Hl.
      2: { erewrite fallback_list_raises; eauto. unfold events. simpl. set_solver. }
      destruct (find_generated_transcript transcripts LANGS) as [gen|e2] eqn:Hf.
      2: { erewrite fallback_find_raises; eauto. unfold events. simpl. set_solver. }
      destruct (transcript_fetch gen) as [snippets|e3] eqn:Hg.
      * erewrite fallback_returns; eauto. unfold events. simpl. set_solver.
      * erewrite fallback_fetch_raises; eauto. unfold events. simpl. set_solver.
  - intros api e -> H He. apply primary_raises_unexpected with e; [done|].
    destruct (expected_absence e) eqn:Hx; [|done].
    by apply expected_absence_spec in Hx.
Qed.

Lemma fallback_iff_expected_absence_witness :
  get_transcript (Return (failing_client (OtherException "IOError") VideoUnavailable))
    (Some "abc123")
  = ([Api CallConstructor; Api (CallFetch (Some "abc123") LANGS)], Return "").
Proof.
  apply (proj2 (fallback_iff_expected_absence
                  (Return (failing_client (OtherException "IOError") VideoUnavailable))
                  (Some "abc123"))
           (failing_client (OtherException "IOError") VideoUnavailable)
           (OtherException "IOError")); [reflexivity|reflexivity|].
  intros [H|[H|H]]; discriminate H.
Defined.

(** C3: whichever tier succeeds, the result is the join of its text
    fragments, in their order and separated by one space, without the
    whitespace at the two ends; primary fragments [Hello], [world] give
    [Hello world], and a disabled primary with fallback fragments [Auto],
    [text] gives [Auto text]. *)
Theorem get_transcript_joins_fragments (api : Client) (vid : cell)
    (snippets : list entry) :
  tier_succeeds api vid snippets ->
  exists s,
    result (get_transcript (Return api) vid) = Return s
    /\ s = strip (join " " (map getattr_text snippets))
    /\ trimmed_of (join " " (map getattr_text snippets)) s
    /\ (map text snippets = [Some "Hello"; Some "world"] -> s = "Hello world")
    /\ (map text snippets = [Some "Auto"; Some "text"] -> s = "Auto text").
Proof.
  intros Hok. exists (text_of snippets).
  split; [|split; [done|split; [apply strip_trimmed|]]].
  - destruct Hok as [H|e transcripts gen H He Hl Hf Hg].
    + by erewrite primary_returns.
    + by erewrite fallback_returns.
  - unfold text_of, getattr_text. rewrite <- (map_map text (default "")).
    split; intros ->; reflexivity.
Qed.

Lemma get_transcript_joins_fragments_witness :
  result (get_transcript (Return (primary_client ["Hello"; "world"])) (Some "abc123"))
    = Return "Hello world"
  /\ result (get_transcript
               (Return (fallback_client TranscriptsDisabled ["Auto"; "text"]))
               (Some "abc123"))
    = Return "Auto text".
Proof.
  split.
  - destruct (get_transcript_joins_fragments (primary_client ["Hello"; "world"])
                (Some "abc123") [mkEntry (Some "Hello"); mkEntry (Some "world")])
      as [s [Hs [_ [_ [Hhello _]]]]].
    + apply primary_succeeds. reflexivity.
    + rewrite Hs. f_equal. apply Hhello. reflexivity.
  - destruct (get_transcript_joins_fragments
                (fallback_client TranscriptsDisabled ["Auto"; "text"])
                (Some "abc123") [mkEntry (Some "Auto"); mkEntry (Some "text")])
      as [s [Hs [_ [_ [_ Hauto]]]]].
    + eapply fallback_succeeds; reflexivity.
    + rewrite Hs. f_equal. apply Hauto. reflexivity.
Defined.

End Resolver.

(** ** Tables *)

Section Tables.

Lemma col_index_elem name cols :
  name ∈ cols -> exists i, col_index name cols = Some i /\ i < length cols.
Proof.
  induction cols as [|c cols IH]; intros Hin; [by apply elem_of_nil in Hin|].
  simpl. destruct (String.eqb c name) eqn:Heq.
  - exists 0. split; [done|lia].
  - apply elem_of_cons in Hin as [->|Hin].
    + by rewrite String.eqb_refl in Heq.
    + destruct (IH Hin) as [i [Hi Hlt]]. exists (S i). rewrite Hi.
      split; [done|lia].
Qed.

Lemma col_index_absent name cols :
  name ∉ cols -> col_index name cols = None.
Proof.
  induction cols as [|c cols IH]; intros Hin; [done|].
  simpl. destruct (String.eqb c name) eqn:Heq.
  - apply String.eqb_eq in Heq. subst. exfalso. apply Hin. by left.
  - rewrite IH; [done|]. intros H. apply Hin. by right.
Qed.

Lemma col_index_app_l name cols more i :
  col_index name cols = Some i -> col_index name (cols ++ more) = Some i.
Proof.
  revert i. induction cols as [|c cols IH]; intros i; simpl; [done|].
  destruct (String.eqb c name); [done|].
  destruct (col_index name cols) as [k|]; [|done].
  intros Hk. by rewrite (IH k).
Qed.

Lemma col_index_app_new name cols :
  name ∉ cols -> col_index name (cols ++ [name]) = Some (length cols).
Proof.
  induction cols as [|c cols IH]; intros Hin; simpl.
  - by rewrite String.eqb_refl.
  - destruct (String.eqb c name) eqn:Heq.
    + apply String.eqb_eq in Heq. subst. exfalso. apply Hin. by left.
    + rewrite IH; [done|]. intros H. apply Hin. by right.
Qed.

Lemma get_cell_app_l i (r more : list cell) :
  i < length r -> get_cell i (r ++ more) = get_cell i r.
Proof. intros Hi. unfold get_cell. by rewrite lookup_app_l. Qed.

Lemma get_cell_app_new (r : list cell) v :
  get_cell (length r) (r ++ [v]) = v.
Proof.
  unfold get_cell. rewrite lookup_app_r by reflexivity.
  by rewrite Nat.sub_diag.
Qed.

(** Selecting by a mask computed row by row is filtering. *)
Lemma mask_filter {A} (f : A -> bool) (l : list A) :
  map snd (filter (fun p => fst p = true) (zip (map f l) l))
  = filter (fun x => f x = true) l.
Proof.
  induction l as [|x l IH]; [done|]. simpl.
  rewrite !filter_cons. simpl. destruct (f x) eqn:Hx.
  - rewrite decide_True by done. rewrite decide_True by done.
    simpl. by rewrite IH.
  - rewrite decide_False by done. rewrite decide_False by done. done.
Qed.

Lemma existsb_zip_diag {A} (f : A * A -> bool) (l : list A) :
  (forall a, f (a, a) = false) -> existsb f (zip l l) = false.
Proof.
  intros Hf. induction l as [|a l IH]; [done|]. simpl. by rewrite Hf, IH.
Qed.

Lemma suffix_duplicates_same l : suffix_duplicates l l = false.
Proof.
  unfold suffix_duplicates. apply existsb_zip_diag. intros []; reflexivity.
Qed.

Lemma well_formed_rows df r :
  well_formed df = true -> r ∈ rows df -> length r = length (columns df).
Proof.
  unfold well_formed. intros Hwf Hin.
  apply andb_prop in Hwf as [_ Hrows].
  rewrite forallb_forall in Hrows.
  apply Nat.eqb_eq, Hrows. by apply list_elem_of_In.
Qed.

Lemma col_index_lookup name cols i :
  col_index name cols = Some i -> cols !! i = Some name.
Proof.
  revert i. induction cols as [|c cols IH]; intros i; simpl; [done|].
  destruct (String.eqb c name) eqn:Heq.
  - intros [= <-]. simpl. f_equal. by apply String.eqb_eq.
  - destruct (col_index name cols) as [k|]; [|done].
    intros [= <-]. simpl. by apply IH.
Qed.

Lemma get_cell_insert_ne i t (r : list cell) v :
  i <> t -> get_cell i (<[t := v]> r) = get_cell i r.
Proof. intros Hne. unfold get_cell. by rewrite list_lookup_insert_ne. Qed.

Lemma get_cell_insert_eq t (r : list cell) v :
  t < length r -> get_cell t (<[t := v]> r) = v.
Proof. intros Hlt. unfold get_cell. by rewrite list_lookup_insert_eq. Qed.

Lemma duplicated_from_distinct (seen l : list string) :
  NoDup l -> (forall x, x ∈ l -> x ∉ seen) ->
  Forall (fun b => b = false) (duplicated_from seen l).
Proof.
  intros Hnd. revert seen. induction Hnd as [|x l Hx Hnd IH]; intros seen Hseen;
    [constructor|].
  simpl. constructor.
  - apply bool_decide_false, Hseen. by left.
  - apply IH. intros y Hy [->|Hin]%elem_of_cons; [done|].
    apply (Hseen y); [by right|done].
Qed.

Lemma suffix_duplicates_distinct (old new : list string) :
  NoDup new -> suffix_duplicates old new = false.
Proof.
  intros Hnd. unfold suffix_duplicates, duplicated.
  pose proof (duplicated_from_distinct [] new Hnd
                (fun x _ => not_elem_of_nil x)) as Hall.
  generalize (duplicated_from [] old) as marks.
  induction Hall as [|b bs -> _ IH]; intros [|m marks]; try done.
  simpl. apply IH.
Qed.

Lemma filter_map_comm {A B} (f : A -> B) (P : B -> Prop) (Q : A -> Prop)
    `{!forall b, Decision (P b)} `{!forall a, Decision (Q a)} (l : list A) :
  (forall a, P (f a) <-> Q a) ->
  filter P (map f l) = map f (filter Q l).
Proof.
  intros HPQ. induction l as [|a l IH]; [done|]. simpl.
  rewrite !filter_cons. specialize (HPQ a).
  repeat case_decide; try tauto; simpl; by rewrite IH.
Qed.

End Tables.

(** ** Merging the transcripts back *)

Section Merger.
Import FetchCoreTranscripts.

Lemma transcript_of_run ctor vid :
  (exists api, ctor = Return api) ->
  exists calls, get_transcript ctor vid = (calls, Return (transcript_of ctor vid)).
Proof.
  intros [api ->]. unfold transcript_of.
  destruct (get_transcript_returns api vid) as [s Hs]. rewrite Hs.
  destruct (get_transcript (Return api) vid) as [calls o]. simpl in Hs.
  subst o. by exists calls.
Qed.

Lemma fetch_transcripts_run api k vids :
  clients_available api ->
  result (fetch_transcripts api k vids) = Return (transcripts_from api k vids).
Proof.
  intros Hok. revert k. induction vids as [|vid vids IH]; intros k; [done|].
  simpl. destruct (transcript_of_run (api k) vid (Hok k)) as [calls Hrun].
  unfold result in *. run. rewrite Hrun.
  specialize (IH (S k)).
  destruct (fetch_transcripts api (S k) vids) as [calls' o]. simpl in IH.
  subst o. simpl. unfold transcripts_from. simpl.
  rewrite Nat.add_0_r. do 2 f_equal.
  apply imap_ext. intros n v _. simpl. by rewrite Nat.add_succ_r.
Qed.

Lemma transcripts_from_length api k vids :
  length (transcripts_from api k vids) = length vids.
Proof. unfold transcripts_from. by rewrite length_imap. Qed.

(** The rows of [core_df[["video_id", "transcript"]]]. *)
Lemma right_rows j width (core : list (list cell)) (ts : list string) :
  j < width ->
  Forall (fun r => length r = width) core ->
  length ts = length core ->
  map (fun r => [get_cell j r; get_cell width r])
    (zip_with (fun r v => r ++ [v]) core (map Some ts))
  = map (fun p => [fst p; Some (snd p)]) (zip (map (get_cell j) core) ts).
Proof.
  intros Hj Hcore. revert ts.
  induction Hcore as [|r core Hr Hcore IH]; intros [|t ts] Hlen;
    try done; simpl in *.
  rewrite get_cell_app_l by lia.
  f_equal; [|apply IH; lia].
  f_equal. subst width. by rewrite get_cell_app_new.
Qed.

Lemma join_row_attach df j pairs (l : list cell) :
  col_index "video_id" (columns df) = Some j ->
  join_row j 0 2 (map (fun p => [fst p; Some (snd p)]) pairs) l
  = attach df pairs l.
Proof.
  intros Hj. unfold join_row, attach, cell_of. rewrite Hj.
  rewrite (filter_map_comm _ _ (fun p : cell * string => fst p = get_cell j l))
    by done.
  match goal with
  | |- match map _ ?F1 with _ => _ end = match ?F2 with _ => _ end =>
      change F2 with F1; destruct F1 as [|p ms]
  end; [reflexivity|].
  simpl. f_equal. by rewrite map_map.
Qed.

Lemma core_df_selected df i :
  col_index "Core_video" (columns df) = Some i ->
  select_rows (map (fun c => String.eqb (astype_str c) "1")
                 (map (get_cell i) (rows df))) df
  = {| columns := columns df; rows := core_rows df |}.
Proof.
  intros Hi. unfold select_rows, core_rows. f_equal.
  rewrite map_map.
  rewrite (map_ext _ (flagged df)); [apply mask_filter|].
  intros r. unfold flagged, cell_of. by rewrite Hi.
Qed.

Lemma no_overlap (left : list string) (on other : string) (sfx : string) (l : list string) :
  other ∉ left -> l ⊆ left ->
  map (fun c => if negb (String.eqb c on) && bool_decide (c ∈ left)
                   && bool_decide (c ∈ [on; other])
                then c +:+ sfx else c) l = l.
Proof.
  intros Hother Hsub. induction l as [|c l IH]; [done|]. simpl.
  rewrite IH by (intros x Hx; apply Hsub; by right). f_equal.
  destruct (String.eqb c on) eqn:Hc; [done|]. simpl.
  apply String.eqb_neq in Hc.
  rewrite (bool_decide_false (c ∈ [on; other])); [by rewrite andb_false_r|].
  intros Hin. apply elem_of_cons in Hin as [->|Hin]; [done|].
  apply list_elem_of_singleton in Hin as ->.
  apply Hother, Hsub. by left.
Qed.

(** What [main] does when there are selected rows and nothing raises. *)
Lemma main_writes api output df :
  well_formed df = true ->
  "Core_video" ∈ columns df ->
  "video_id" ∈ columns df ->
  "transcript" ∉ columns df ->
  clients_available api ->
  core_rows df <> [] ->
  main api output df
  = (events (fetch_transcripts api 0 (core_ids df))
       ++ [ToCsv output
             {| columns := columns df ++ ["transcript"];
                rows := flat_map (attach df (resolved api df)) (rows df) |};
           Print ("Saved with transcripts to " +:+ output)],
     Return tt).
Proof.
  intros Hwf Hflag Hid Hnew Hok Hcore. unfold main.
  rewrite !bool_decide_true by done. simpl.
  destruct (col_index_elem _ _ Hflag) as [i [Hi _]].
  destruct (col_index_elem _ _ Hid) as [j [Hj Hjlt]].
  unfold column at 1. rewrite Hi. run.
  rewrite (core_df_selected df i Hi).
  assert (Hne : empty {| columns := columns df; rows := core_rows df |} = false).
  { unfold empty. simpl. destruct (columns df); [by apply elem_of_nil in Hid|].
    by destruct (core_rows df). }
  rewrite Hne. unfold column. simpl. rewrite Hj. simpl.
  assert (Hids : map (get_cell j) (core_rows df) = core_ids df).
  { unfold core_ids. apply map_ext. intros r. unfold cell_of. by rewrite Hj. }
  rewrite Hids.
  pose proof (fetch_transcripts_run api 0 (core_ids df) Hok) as Hrun.
  unfold result, events in *.
  destruct (fetch_transcripts api 0 (core_ids df)) as [calls o]. simpl in *.
  subst o.
  unfold set_column. simpl. rewrite (col_index_absent _ _ Hnew).
  unfold select_columns. simpl.
  rewrite (col_index_app_l _ _ _ _ Hj), (col_index_app_new _ _ Hnew). simpl.
  rewrite right_rows.
  2: done.
  2: { apply Forall_forall. intros r Hr. apply (well_formed_rows df r Hwf).
       unfold core_rows in Hr. by apply list_elem_of_filter in Hr as [_ Hr]. }
  2: { rewrite transcripts_from_length. unfold core_ids. by rewrite length_map. }
  rewrite Hids. fold (resolved api df).
  unfold merge. simpl. rewrite Hj. simpl.
  rewrite (no_overlap (columns df) "video_id" "transcript" "_x" (columns df))
    by done.
  rewrite (bool_decide_false ("transcript" ∈ columns df)) by done. simpl.
  rewrite suffix_duplicates_same. simpl.
  do 5 f_equal.
  apply flat_map_ext. intros l. by apply join_row_attach.
Qed.

(** The rows of [core_df[["video_id", "transcript"]]] when the assignment
    overwrote an existing column. *)
Lemma right_rows_overwritten j t width (core : list (list cell)) (ts : list string) :
  j <> t -> t < width ->
  Forall (fun r => length r = width) core ->
  length ts = length core ->
  map (fun r => [get_cell j r; get_cell t r])
    (zip_with (fun r v => <[t := v]> r) core (map Some ts))
  = map (fun p => [fst p; Some (snd p)]) (zip (map (get_cell j) core) ts).
Proof.
  intros Hne Ht Hcore. revert ts.
  induction Hcore as [|r core Hr Hcore IH]; intros [|x ts] Hlen;
    try done; simpl in *.
  rewrite get_cell_insert_ne by done. rewrite get_cell_insert_eq by lia.
  f_equal. apply IH. lia.
Qed.

(** Only [transcript] is a label of both sides of the merge. *)
Lemma merged_labels_overlap cols :
  "video_id" ∈ cols ->
  map (fun c => if negb (String.eqb c "video_id") && bool_decide (c ∈ cols)
                   && bool_decide (c ∈ ["video_id"; "transcript"])
                then c +:+ "_x" else c) cols
  = map (fun c => if String.eqb c "transcript" then "transcript_x" else c) cols.
Proof.
  intros _. apply map_ext_in. intros c Hc%list_elem_of_In.
  rewrite (bool_decide_true (c ∈ cols)) by done.
  destruct (String.eqb c "transcript") eqn:Ht.
  - apply String.eqb_eq in Ht. by subst c.
  - destruct (String.eqb c "video_id") eqn:Hv; [done|]. simpl.
    rewrite bool_decide_false; [done|].
    apply String.eqb_neq in Ht, Hv.
    intros [->|[->|[]%elem_of_nil]%elem_of_cons]%elem_of_cons; done.
Qed.

Lemma renamed_labels_distinct cols :
  NoDup cols -> "transcript_x" ∉ cols ->
  NoDup (map (fun c => if String.eqb c "transcript" then "transcript_x" else c) cols).
Proof.
  intros Hnd Hx. apply (NoDup_fmap_2_strong _ cols); [|done].
  intros a b Ha Hb.
  destruct (String.eqb a "transcript") eqn:Ea, (String.eqb b "transcript") eqn:Eb;
    intros Heq.
  - apply String.eqb_eq in Ea, Eb. by subst.
  - by subst b.
  - by subst a.
  - done.
Qed.

(** What [main] does when the input already has a [transcript] column. *)
Lemma main_writes_renamed api output df :
  well_formed df = true ->
  "Core_video" ∈ columns df ->
  "video_id" ∈ columns df ->
  "transcript" ∈ columns df ->
  "transcript_x" ∉ columns df ->
  clients_available api ->
  core_rows df <> [] ->
  main api output df
  = (events (fetch_transcripts api 0 (core_ids df))
       ++ [ToCsv output
             {| columns := merged_labels (columns df);
                rows := flat_map (attach df (resolved api df)) (rows df) |};
           Print ("Saved with transcripts to " +:+ output)],
     Return tt).
Proof.
  intros Hwf Hflag Hid Hold Hx Hok Hcore. unfold main.
  rewrite !bool_decide_true by done. simpl.
  destruct (col_index_elem _ _ Hflag) as [i [Hi _]].
  destruct (col_index_elem _ _ Hid) as [j [Hj Hjlt]].
  destruct (col_index_elem _ _ Hold) as [t [Ht Htlt]].
  assert (Hjt : j <> t).
  { intros ->. apply col_index_lookup in Hj, Ht. rewrite Hj in Ht. discriminate Ht. }
  assert (Hnd : NoDup (columns df)).
  { unfold well_formed in Hwf. apply andb_prop in Hwf as [Hnd _].
    by apply bool_decide_eq_true in Hnd. }
  unfold column at 1. rewrite Hi. run.
  rewrite (core_df_selected df i Hi).
  assert (Hne : empty {| columns := columns df; rows := core_rows df |} = false).
  { unfold empty. simpl. destruct (columns df); [by apply elem_of_nil in Hid|].
    by destruct (core_rows df). }
  rewrite Hne. unfold column. simpl. rewrite Hj. simpl.
  assert (Hids : map (get_cell j) (core_rows df) = core_ids df).
  { unfold core_ids. apply map_ext. intros r. unfold cell_of. by rewrite Hj. }
  rewrite Hids.
  pose proof (fetch_transcripts_run api 0 (core_ids df) Hok) as Hrun.
  unfold result, events in *.
  destruct (fetch_transcripts api 0 (core_ids df)) as [calls o]. simpl in *.
  subst o.
  unfold set_column. simpl. rewrite Ht.
  unfold select_columns. simpl. rewrite Hj, Ht. simpl.
  rewrite (right_rows_overwritten j t (length (columns df))); try done.
  2: { apply Forall_forall. intros r Hr. apply (well_formed_rows df r Hwf).
       unfold core_rows in Hr. by apply list_elem_of_filter in Hr as [_ Hr]. }
  2: { rewrite transcripts_from_length. unfold core_ids. by rewrite length_map. }
  rewrite Hids. fold (resolved api df).
  unfold merge. simpl. rewrite Hj. simpl.
  rewrite (merged_labels_overlap _ Hid).
  rewrite (bool_decide_true ("transcript" ∈ columns df)) by done.
  simpl.
  rewrite (suffix_duplicates_distinct _ _ (renamed_labels_distinct _ Hnd Hx)).
  rewrite (suffix_duplicates_distinct ["video_id"; "transcript"]
             ["video_id"; "transcript" +:+ "_y"]) by compute_done.
  simpl. unfold merged_labels. rewrite bool_decide_true by done.
  do 5 f_equal.
  apply flat_map_ext. intros l. by apply join_row_attach.
Qed.

Lemma get_transcript_events ctor vid :
  Forall (fun ev => exists c, ev = Api c) (events (get_transcript ctor vid)).
Proof.
  destruct ctor as [api|e0]; [|rewrite constructor_raises; repeat constructor; eauto].
  destruct (fetch api vid LANGS) as [snippets|e] eqn:H.
  { erewrite primary_returns by done. repeat constructor; eauto. }
  destruct (expected_absence e) eqn:He.
  2: { erewrite primary_raises_unexpected by done. repeat constructor; eauto. }
  destruct (list_ api vid) as [transcripts|e1] eqn:Hl.
  2: { erewrite fallback_list_raises by done. repeat constructor; eauto. }
  destruct (find_generated_transcript transcripts LANGS) as [gen|e2] eqn:Hf.
  2: { erewrite fallback_find_raises by done. repeat constructor; eauto. }
  destruct (transcript_fetch gen) as [snippets|e3] eqn:Hg.
  - erewrite fallback_returns by done. repeat constructor; eauto.
  - erewrite fallback_fetch_raises by done. repeat constructor; eauto.
Qed.

Lemma fetch_transcripts_events api k vids :
  Forall (fun ev => exists c, ev = Api c) (events (fetch_transcripts api k vids)).
Proof.
  revert k. induction vids as [|vid vids IH]; intros k; [constructor|].
  simpl. pose proof (get_transcript_events (api k) vid) as Hg.
  specialize (IH (S k)). unfold events in *. run.
  destruct (get_transcript (api k) vid) as [calls [t|e]]; simpl in *; [|done].
  destruct (fetch_transcripts api (S k) vids) as [calls' [ts|e]]; simpl in *.
  - rewrite app_nil_r. by apply Forall_app.
  - by apply Forall_app.
Qed.

Lemma written_after_calls {A} (calls : list event) path table line (o : outcome A) :
  Forall (fun ev => exists c, ev = Api c) calls ->
  written ((calls ++ [ToCsv path table; Print line], o) : M event A) = [table].
Proof.
  intros Hcalls. unfold written, events. simpl.
  induction Hcalls as [|ev calls [c ->] _ IH]; [done|]. simpl. exact IH.
Qed.

Lemma merged_labels_new cols :
  "transcript" ∉ cols -> merged_labels cols = cols ++ ["transcript"].
Proof. intros Hnew. unfold merged_labels. by rewrite bool_decide_false. Qed.

(** The table written when there are selected rows and nothing raises. *)
Lemma main_written api output df :
  well_formed df = true ->
  "Core_video" ∈ columns df ->
  "video_id" ∈ columns df ->
  ~ ("transcript" ∈ columns df /\ "transcript_x" ∈ columns df) ->
  clients_available api ->
  core_rows df <> [] ->
  result (main api output df) = Return tt
  /\ written (main api output df)
     = [{| columns := merged_labels (columns df);
           rows := flat_map (attach df (resolved api df)) (rows df) |}].
Proof.
  intros Hwf Hflag Hid Hlabels Hok Hcore.
  destruct (decide ("transcript" ∈ columns df)) as [Hold|Hnew].
  - rewrite main_writes_renamed by tauto. split; [done|].
    apply written_after_calls, fetch_transcripts_events.
  - rewrite main_writes by done. rewrite merged_labels_new by done.
    split; [done|]. apply written_after_calls, fetch_transcripts_events.
Qed.

(** What [main] does when no row is selected. *)
Lemma main_without_selected_rows api output df :
  (forall r, r ∈ rows df -> flagged df r = false) ->
  written (main api output df) = []
  /\ ("Core_video" ∈ columns df -> "video_id" ∈ columns df ->
      main api output df
      = ([Print "No rows with Core_video = 1 found."], Return tt)).
Proof.
  intros Hnone.
  assert (Hcore : core_rows df = []).
  { unfold core_rows. induction (rows df) as [|r l IH]; [done|].
    rewrite filter_cons. rewrite decide_False.
    - apply IH. intros r' Hr'. apply Hnone. by right.
    - rewrite Hnone; [done|by left]. }
  unfold main.
  destruct (decide ("Core_video" ∈ columns df)) as [Hflag|Hflag].
  2: { rewrite (bool_decide_false _ Hflag). simpl. by split. }
  destruct (decide ("video_id" ∈ columns df)) as [Hid|Hid].
  2: { rewrite (bool_decide_true _ Hflag), (bool_decide_false _ Hid). simpl.
       by split. }
  rewrite !bool_decide_true by done. simpl.
  destruct (col_index_elem _ _ Hflag) as [i [Hi _]].
  unfold column. rewrite Hi. run.
  rewrite (core_df_selected df i Hi), Hcore.
  assert (He : empty {| columns := columns df; rows := [] |} = true)
    by (unfold empty; simpl; by destruct (columns df)).
  rewrite He. by split.
Qed.

Lemma resolved_ids api df : map fst (resolved api df) = core_ids df.
Proof.
  unfold resolved. apply fst_zip. by rewrite transcripts_from_length.
Qed.

Lemma resolved_lookup api df k r :
  core_rows df !! k = Some r ->
  resolved api df !! k
  = Some (cell_of "video_id" df r,
          transcript_of (api k) (cell_of "video_id" df r)).
Proof.
  intros Hk. unfold resolved, transcripts_from, core_ids.
  apply lookup_zip_with_Some.
  exists (cell_of "video_id" df r), (transcript_of (api k) (cell_of "video_id" df r)).
  split; [done|]. split.
  - by rewrite list_lookup_fmap, Hk.
  - rewrite list_lookup_imap, list_lookup_fmap, Hk. done.
Qed.

Lemma attach_absent df pairs r :
  cell_of "video_id" df r ∉ map fst pairs ->
  attach df pairs r = [r ++ [None]].
Proof.
  intros Hnot. unfold attach.
  destruct (filter _ pairs) as [|p ms] eqn:Hf; [done|].
  exfalso. apply Hnot.
  assert (Hp : p ∈ filter (fun p => fst p = cell_of "video_id" df r) pairs)
    by (rewrite Hf; by left).
  apply list_elem_of_filter in Hp as [<- Hp].
  apply list_elem_of_fmap. by exists p.
Qed.

Lemma attach_shape df pairs r :
  exists ts, ts <> [] /\ attach df pairs r = map (fun t => r ++ [t]) ts
             /\ length ts
                = Nat.max 1 (length (filter (fun c => c = cell_of "video_id" df r)
                                              (map fst pairs))).
Proof.
  unfold attach.
  rewrite (filter_map_comm fst _ (fun p => fst p = cell_of "video_id" df r))
    by done.
  rewrite length_map.
  destruct (filter _ pairs) as [|p ms]; [by exists [None]|].
  exists (map (fun p => Some (snd p)) (p :: ms)).
  split; [done|]. split; [by rewrite map_map|].
  rewrite length_map. simpl. lia.
Qed.

Lemma attach_member df pairs r o :
  o ∈ attach df pairs r -> exists t, o = r ++ [t].
Proof.
  destruct (attach_shape df pairs r) as [ts [_ [-> _]]].
  intros Hin. apply list_elem_of_fmap in Hin as [t [-> _]]. by exists t.
Qed.

Lemma count_absent (v : cell) (ids : list cell) :
  v ∉ ids -> filter (fun c => c = v) ids = [].
Proof.
  induction ids as [|c ids IH]; intros Hv; [done|].
  rewrite filter_cons. case_decide.
  - subst c. exfalso. apply Hv. by left.
  - apply IH. intros Hin. apply Hv. by right.
Qed.

Lemma count_le_1 (v : cell) (ids : list cell) :
  NoDup ids -> length (filter (fun c => c = v) ids) <= 1.
Proof.
  induction 1 as [|c ids Hc Hnd IH]; [simpl; lia|].
  rewrite filter_cons. case_decide; [|done]. subst c. simpl.
  rewrite count_absent by done. simpl. lia.
Qed.

(** With pairwise distinct selected identifiers every input row yields
    one output row. *)
Lemma attach_all_single df pairs (l : list (list cell)) :
  NoDup (map fst pairs) ->
  exists ts, length ts = length l
             /\ flat_map (attach df pairs) l = zip_with (fun r t => r ++ [t]) l ts.
Proof.
  intros Hnd. induction l as [|r l [ts [Hlen IH]]]; [by exists []|].
  destruct (attach_shape df pairs r) as [g [Hg [Hatt Hcount]]].
  pose proof (count_le_1 (cell_of "video_id" df r) _ Hnd) as Hle.
  destruct g as [|t [|t' g]]; [done| |simpl in Hcount; lia].
  exists (t :: ts). simpl. rewrite Hatt, IH, Hlen. done.
Qed.

(** Three rows, two of them selected, resolved to [X] and to the empty
    string: three rows are written, the unselected one with a null. *)
Example three_row_scenario :
  main scenario_api "out.csv" scenario_table
  = ([Api CallConstructor; Api (CallFetch (Some "v1") LANGS);
      Api CallConstructor; Api (CallFetch (Some "v3") LANGS);
      ToCsv "out.csv"
        {| columns := ["video_id"; "Core_video"; "note"; "transcript"];
           rows := [[Some "v1"; Some "1"; Some "keep"; Some "X"];
                    [Some "v2"; Some "0"; None; None];
                    [Some "v3"; Some "1"; Some "keep"; Some ""]] |};
      Print "Saved with transcripts to out.csv"],
     Return tt).
Proof. reflexivity. Qed.

(** C5, as stated, fails: the merge is keyed by the identifier, so an
    unselected row that shares its identifier with a selected row is
    written with that row's transcript instead of a null. *)
Lemma unselected_row_with_shared_id_gets_transcript :
  flagged shared_id_table [Some "abc123"; Some "0"] = false
  /\ written (main (fun _ => Return (primary_client ["Hi"])) "out.csv" shared_id_table)
     = [{| columns := ["video_id"; "Core_video"; "transcript"];
           rows := [[Some "abc123"; Some "1"; Some "Hi"];
                    [Some "abc123"; Some "0"; Some "Hi"]] |}].
Proof. split; reflexivity. Qed.

(** C5, amended: in the merged table every input row whose identifier is
    not the identifier of any selected row carries a null transcript, and
    every selected row whose resolution produced the empty string is
    written with exactly the empty string, a value different from the
    null; this holds for every well-formed input table that has selected
    rows and on which the merge does not raise, when the client can be
    instantiated. *)
Theorem merged_null_versus_empty (api : nat -> outcome Client)
    (output : string) (df : DataFrame) :
  well_formed df = true ->
  "Core_video" ∈ columns df ->
  "video_id" ∈ columns df ->
  ~ ("transcript" ∈ columns df /\ "transcript_x" ∈ columns df) ->
  clients_available api ->
  core_rows df <> [] ->
  exists merged,
    written (main api output df) = [merged]
    /\ (forall r, r ∈ rows df -> cell_of "video_id" df r ∉ core_ids df ->
          r ++ [None] ∈ rows merged
          /\ forall t, r ++ [t] ∈ rows merged -> t = None)
    /\ (forall k r, core_rows df !! k = Some r ->
          transcript_of (api k) (cell_of "video_id" df r) = "" ->
          r ++ [Some ""] ∈ rows merged)
    /\ (Some "" : cell) <> None.
Proof.
  intros Hwf Hflag Hid Hnew Hok Hcore.
  destruct (main_written api output df) as [_ Hw]; try done.
  eexists. split; [exact Hw|]. simpl. split; [|split; [|done]].
  - intros r Hr Habs. rewrite <- (resolved_ids api df) in Habs.
    split.
    + apply list_elem_of_In, in_flat_map. exists r.
      split; [by apply list_elem_of_In|].
      rewrite attach_absent by done. by left.
    + intros t Hin. apply list_elem_of_In, in_flat_map in Hin as [l [Hl Hin]].
      apply list_elem_of_In in Hin.
      destruct (attach_member _ _ _ _ Hin) as [t' Heq].
      apply app_inj_tail in Heq as [-> ->].
      rewrite attach_absent in Hin by done.
      apply list_elem_of_singleton in Hin.
      by apply app_inj_tail in Hin as [_ ->].
  - intros k r Hk Hempty.
    apply list_elem_of_In, in_flat_map. exists r. split.
    + apply list_elem_of_In. unfold core_rows in Hk.
      apply list_elem_of_lookup_2 in Hk.
      by apply list_elem_of_filter in Hk as [_ Hk].
    + apply list_elem_of_In.
      pose proof (resolved_lookup api df k r Hk) as Hp. rewrite Hempty in Hp.
      apply list_elem_of_lookup_2 in Hp.
      unfold attach.
      assert (Hf : (cell_of "video_id" df r, "")
                     ∈ filter (fun p => fst p = cell_of "video_id" df r)
                         (resolved api df))
        by (by apply list_elem_of_filter).
      destruct (filter _ (resolved api df)) as [|p ms]; [by apply elem_of_nil in Hf|].
      apply list_elem_of_fmap.
      exists (cell_of "video_id" df r, ""). by split.
Qed.

Lemma merged_null_versus_empty_witness :
  exists merged,
    written (main scenario_api "out.csv" scenario_table) = [merged]
    /\ [Some "v2"; Some "0"; None; None] ∈ rows merged
    /\ [Some "v3"; Some "1"; Some "keep"; Some ""] ∈ rows merged.
Proof.
  destruct (merged_null_versus_empty scenario_api "out.csv" scenario_table)
    as [merged [Hw [Hnull [Hempty _]]]].
  - reflexivity.
  - compute_done.
  - compute_done.
  - compute_done.
  - intros [|k]; eexists; reflexivity.
  - discriminate.
  - exists merged. split; [exact Hw|]. split.
    + apply (Hnull [Some "v2"; Some "0"; None]); compute_done.
    + apply (Hempty 1 [Some "v3"; Some "1"; Some "keep"]); reflexivity.
Defined.

(** C9, as stated, fails: when two selected rows carry the same
    identifier the join repeats rows, and the output is no longer the
    input table with one more column. *)
Lemma repeated_id_output_is_not_input_plus_column :
  written (main (fun _ => Return (primary_client ["Hi"])) "out.csv" repeated_id_table)
  = [{| columns := ["video_id"; "Core_video"; "note"; "transcript"];
        rows := [[Some "abc123"; Some "1"; Some "first"; Some "Hi"];
                 [Some "abc123"; Some "1"; Some "first"; Some "Hi"];
                 [Some "abc123"; Some "1"; Some "second"; Some "Hi"];
                 [Some "abc123"; Some "1"; Some "second"; Some "Hi"]] |}]
  /\ length (rows repeated_id_table) = 2.
Proof. split; reflexivity. Qed.

(** C9, amended: for a well-formed input table that has selected rows and
    on which the merge does not raise, when the client can be
    instantiated, every written row is an input row with one transcript
    cell appended and every input row is written, so the cells of every
    input column pass through unchanged; when the input has no
    [transcript] column of its own the labels of the written table are
    the input's labels followed by [transcript]; when moreover the
    selected rows carry pairwise distinct identifiers, the rows of the
    written table are the rows of the input table, in order, each with
    one appended cell. *)
Theorem input_columns_pass_through (api : nat -> outcome Client)
    (output : string) (df : DataFrame) :
  well_formed df = true ->
  "Core_video" ∈ columns df ->
  "video_id" ∈ columns df ->
  ~ ("transcript" ∈ columns df /\ "transcript_x" ∈ columns df) ->
  clients_available api ->
  core_rows df <> [] ->
  exists merged,
    written (main api output df) = [merged]
    /\ ("transcript" ∉ columns df -> columns merged = columns df ++ ["transcript"])
    /\ (forall o, o ∈ rows merged ->
          exists r t, r ∈ rows df /\ o = r ++ [t]
                      /\ take (length (columns df)) o = r)
    /\ (forall r, r ∈ rows df -> exists t, r ++ [t] ∈ rows merged)
    /\ (NoDup (core_ids df) ->
          exists transcript : list cell,
            length transcript = length (rows df)
            /\ rows merged
               = zip_with (fun r t => r ++ [t]) (rows df) transcript).
Proof.
  intros Hwf Hflag Hid Hnew Hok Hcore.
  destruct (main_written api output df) as [_ Hw]; try done.
  eexists. split; [exact Hw|]. simpl.
  split; [apply merged_labels_new|]. split; [|split].
  - intros o Hin. apply list_elem_of_In, in_flat_map in Hin as [r [Hr Hin]].
    apply list_elem_of_In in Hr, Hin.
    destruct (attach_member _ _ _ _ Hin) as [t ->].
    exists r, t. split; [done|]. split; [done|].
    rewrite <- (well_formed_rows df r Hwf Hr). by rewrite take_app_length.
  - intros r Hr. destruct (attach_shape df (resolved api df) r) as [ts [Hts [Hatt _]]].
    destruct ts as [|t ts]; [done|]. exists t.
    apply list_elem_of_In, in_flat_map. exists r.
    split; [by apply list_elem_of_In|]. rewrite Hatt. by left.
  - intros Hnd. apply attach_all_single. by rewrite resolved_ids.
Qed.

Lemma input_columns_pass_through_witness :
  exists merged,
    written (main scenario_api "out.csv" scenario_table) = [merged]
    /\ columns merged = ["video_id"; "Core_video"; "note"; "transcript"]
    /\ length (rows merged) = 3.
Proof.
  destruct (input_columns_pass_through scenario_api "out.csv" scenario_table)
    as [merged [Hw [Hcols [_ [_ Hsame]]]]].
  - reflexivity.
  - compute_done.
  - compute_done.
  - compute_done.
  - intros [|k]; eexists; reflexivity.
  - discriminate.
  - exists merged. split; [exact Hw|]. split; [apply Hcols; compute_done|].
    destruct Hsame as [ts [Hlen ->]]; [compute_done|].
    rewrite length_zip_with, Hlen. reflexivity.
Defined.

(** C10: for a well-formed input table that has selected rows and on
    which the merge does not raise, when the client can be instantiated:
    when the selected rows carry pairwise distinct identifiers the
    merged table has exactly one row per input row, in input order; in
    general the input row at each position is written as many times as
    there are selected rows with its identifier (once when there is
    none), so an identifier shared by two selected rows duplicates every
    row that carries it. *)
Theorem merged_rows_per_input_row (api : nat -> outcome Client)
    (output : string) (df : DataFrame) :
  well_formed df = true ->
  "Core_video" ∈ columns df ->
  "video_id" ∈ columns df ->
  ~ ("transcript" ∈ columns df /\ "transcript_x" ∈ columns df) ->
  clients_available api ->
  core_rows df <> [] ->
  exists merged,
    written (main api output df) = [merged]
    /\ (NoDup (core_ids df) ->
          length (rows merged) = length (rows df)
          /\ map (take (length (columns df))) (rows merged) = rows df)
    /\ exists copies : list (list cell),
         length copies = length (rows df)
         /\ rows merged
            = concat (zip_with (fun r ts => map (fun t => r ++ [t]) ts)
                        (rows df) copies)
         /\ forall n r ts,
              rows df !! n = Some r -> copies !! n = Some ts ->
              length ts
              = Nat.max 1 (length (filter (fun c => c = cell_of "video_id" df r)
                                     (core_ids df)))
              /\ (2 <= length (filter (fun c => c = cell_of "video_id" df r)
                                 (core_ids df))
                  -> 2 <= length ts).
Proof.
  intros Hwf Hflag Hid Hnew Hok Hcore.
  destruct (main_written api output df) as [_ Hw]; try done.
  eexists. split; [exact Hw|]. simpl. split.
  - intros Hnd.
    destruct (attach_all_single df (resolved api df) (rows df)) as [ts [Hlen ->]];
      [by rewrite resolved_ids|].
    split; [rewrite length_zip_with; lia|].
    assert (Hrows : Forall (fun r => length r = length (columns df)) (rows df)).
    { apply Forall_forall. intros r Hr. by apply well_formed_rows. }
    clear -Hlen Hrows. revert ts Hlen.
    induction Hrows as [|r l Hr _ IH]; intros [|t ts] Hlen; try done.
    simpl in *. rewrite <- Hr, take_app_length. f_equal.
    rewrite Hr. apply IH. lia.
  - rewrite <- (resolved_ids api df).
    clear Hw. generalize (resolved api df) as pairs. intros pairs.
    generalize (rows df) as l.
    induction l as [|r l [copies [Hlen [Hrows Hcount]]]].
    + exists []. repeat split; try done.
      all: by rewrite lookup_nil in *.
    + destruct (attach_shape df pairs r) as [ts [_ [Hatt Hts]]].
      exists (ts :: copies). split; [simpl; lia|]. split.
      * simpl. by rewrite Hatt, Hrows.
      * intros [|n] r' ts' Hr' Hts'; simpl in *.
        -- injection Hr' as <-. injection Hts' as <-. split; [done|lia].
        -- by apply (Hcount n).
Qed.

Lemma merged_rows_per_input_row_witness :
  exists merged,
    written (main scenario_api "out.csv" scenario_table) = [merged]
    /\ length (rows merged) = 3
    /\ map (take 3) (rows merged) = rows scenario_table.
Proof.
  destruct (merged_rows_per_input_row scenario_api "out.csv" scenario_table)
    as [merged [Hw [Hsame _]]].
  - reflexivity.
  - compute_done.
  - compute_done.
  - compute_done.
  - intros [|k]; eexists; reflexivity.
  - discriminate.
  - exists merged. split; [exact Hw|]. apply Hsame. compute_done.
Defined.

End Merger.

(** ** Candidate sampling *)

Section Sampler.
Import YoutubeAigcSampler.

Lemma keep_unseen_cons seen r df :
  keep_unseen seen (r :: df)
  = if bool_decide (video_id r ∈ seen)
    then keep_unseen (video_id r :: seen) df
    else r :: keep_unseen (video_id r :: seen) df.
Proof.
  unfold keep_unseen. simpl. rewrite filter_cons. simpl.
  destruct (bool_decide (video_id r ∈ seen)); by case_decide.
Qed.

Lemma drop_duplicates_unseen df : drop_duplicates df = keep_unseen [] df.
Proof. reflexivity. Qed.

Lemma keep_unseen_ids seen df v :
  v ∈ map video_id (keep_unseen seen df)
  <-> v ∈ map video_id df /\ v ∉ seen.
Proof.
  revert seen. induction df as [|r df IH]; intros seen.
  - simpl. split; [by intros ?%elem_of_nil|by intros [?%elem_of_nil _]].
  - rewrite keep_unseen_cons. simpl. case_bool_decide as Hseen.
    + rewrite IH, !elem_of_cons. split; [tauto|].
      intros [[->|Hin] Hv]; [tauto|]. split; [done|].
      intros [->|Hv']; tauto.
    + simpl. rewrite !elem_of_cons, IH, elem_of_cons.
      destruct (decide (v = video_id r)) as [->|Hne]; tauto.
Qed.

Lemma keep_unseen_NoDup seen df : NoDup (map video_id (keep_unseen seen df)).
Proof.
  revert seen. induction df as [|r df IH]; intros seen; [constructor|].
  rewrite keep_unseen_cons. case_bool_decide; [apply IH|].
  simpl. constructor; [|apply IH].
  rewrite keep_unseen_ids, elem_of_cons. tauto.
Qed.

Lemma keep_unseen_sublist seen df : keep_unseen seen df `sublist_of` df.
Proof.
  revert seen. induction df as [|r df IH]; intros seen; [constructor|].
  rewrite keep_unseen_cons. case_bool_decide.
  - apply sublist_cons, IH.
  - apply sublist_skip, IH.
Qed.

Lemma keep_unseen_first seen df r :
  r ∈ keep_unseen seen df ->
  exists before after,
    df = before ++ r :: after /\ (video_id r ∉ map video_id before)
    /\ (video_id r ∉ seen).
Proof.
  revert seen. induction df as [|r' df IH]; intros seen.
  - by intros ?%elem_of_nil.
  - rewrite keep_unseen_cons. case_bool_decide as Hseen.
    + intros Hin. destruct (IH _ Hin) as [before [after [-> [Hb Hs]]]].
      rewrite elem_of_cons in Hs.
      exists (r' :: before), after. split; [done|]. split; [|tauto].
      simpl. rewrite elem_of_cons. tauto.
    + intros [->|Hin]%elem_of_cons.
      * exists [], df. split; [done|]. split; [apply not_elem_of_nil|done].
      * destruct (IH _ Hin) as [before [after [-> [Hb Hs]]]].
        rewrite elem_of_cons in Hs.
        exists (r' :: before), after. split; [done|]. split; [|tauto].
        simpl. rewrite elem_of_cons. tauto.
Qed.

Lemma for_each_Forall2 {A B} (f : A -> outcome B) l ys :
  for_each f l = Return ys -> Forall2 (fun x y => f x = Return y) l ys.
Proof.
  revert ys. induction l as [|x l IH]; intros ys; simpl.
  - intros [= <-]. constructor.
  - destruct (f x) as [y|e] eqn:Hx; [|done].
    destruct (for_each f l) as [ys'|e]; [|done].
    intros [= <-]. constructor; [done|by apply IH].
Qed.

(** Every row a query returns is attributed to that query. *)
Lemma search_rows_query youtube q n found r :
  search_videos_for_query youtube q n = Return found ->
  r ∈ found -> query r = q.
Proof.
  unfold search_videos_for_query.
  destruct (search_list youtube q n START_DATE END_DATE) as [items|e]; [|done].
  intros Hrows%for_each_Forall2 Hr.
  apply list_elem_of_lookup in Hr as [k Hk].
  destruct (Forall2_lookup_r _ _ _ _ _ Hrows Hk) as [item [_ Hitem]].
  unfold search_row in Hitem. destruct (videoId item); [|done].
  by injection Hitem as <-.
Qed.

(** The rows gathered by the search loop, query by query. *)
Lemma search_all_returns youtube queries all_rows :
  result (search_all youtube queries) = Return all_rows ->
  exists per_query,
    Forall2 (fun q found => search_videos_for_query youtube q 40 = Return found)
      queries per_query
    /\ all_rows = concat per_query.
Proof.
  revert all_rows. induction queries as [|q queries IH]; intros all_rows.
  - intros [= <-]. exists []. split; [constructor|done].
  - simpl. unfold result in *. run.
    destruct (search_videos_for_query youtube q 40) as [found|e] eqn:Hq; [|done].
    simpl. destruct (search_all youtube queries) as [evs [more|e]]; [|done].
    simpl. intros [= <-].
    destruct (IH more eq_refl) as [per_query [Hall ->]].
    exists (found :: per_query). split; [by constructor|done].
Qed.

Lemma search_all_events youtube queries :
  Forall (fun ev => exists line, ev = Print line)
    (events (search_all youtube queries)).
Proof.
  induction queries as [|q queries IH]; [constructor|].
  simpl. unfold events in *. run.
  destruct (search_videos_for_query youtube q 40) as [found|e]; simpl;
    [|repeat constructor; eauto].
  destruct (search_all youtube queries) as [evs [more|e]]; simpl in *.
  - constructor; [eauto|]. by rewrite app_nil_r.
  - constructor; [eauto|done].
Qed.

(** Where the first occurrence of a row lies in a concatenation. *)
Lemma first_occurrence_in_concat (per_query : list (list CandidateRow))
    before r after :
  concat per_query = before ++ r :: after ->
  exists earlier found later,
    per_query = earlier ++ found :: later
    /\ r ∈ found
    /\ concat earlier `prefix_of` before.
Proof.
  revert before. induction per_query as [|found per_query IH]; intros before.
  - simpl. intros Heq. by destruct before.
  - simpl. intros Heq.
    destruct (decide (length before < length found)) as [Hlt|Hge].
    + exists [], found, per_query. split; [done|]. split; [|by exists before].
      apply list_elem_of_lookup. exists (length before).
      assert (Hl : (found ++ concat per_query) !! length before = Some r)
        by (rewrite Heq; by apply list_lookup_middle).
      by rewrite lookup_app_l in Hl.
    + assert (Hsplit : before = found ++ drop (length found) before).
      { rewrite <- (take_drop (length found) before) at 1. f_equal.
        apply (f_equal (take (length found))) in Heq.
        rewrite take_app_length in Heq.
        rewrite take_app_le in Heq by lia. done. }
      rewrite Hsplit in Heq. rewrite <- app_assoc in Heq.
      apply app_inv_head in Heq.
      destruct (IH _ Heq) as [earlier [found' [later [-> [Hr Hpre]]]]].
      exists (found :: earlier), found', later. split; [done|]. split; [done|].
      simpl. rewrite Hsplit. by apply prefix_app.
Qed.

(** Two queries return [abc123]: one row with that identifier survives,
    attributed to the first of them. *)
Example two_query_scenario :
  map (fun r => (video_id r, query r)) (drop_duplicates scenario_rows)
  = [(Some "abc123", "AI tools for content creation");
     (Some "xyz789", "AI tools for content creators")].
Proof. reflexivity. Qed.

(** C6: deduplication keeps exactly one row per distinct identifier, the
    kept row is the first one with that identifier in input order, the
    kept rows stay in their relative order, and for rows gathered query
    by query the kept row is attributed to the first query that
    returned its video. *)
Theorem drop_duplicates_keeps_first (df : list CandidateRow) :
  NoDup (map video_id (drop_duplicates df))
  /\ (forall v, v ∈ map video_id (drop_duplicates df) <-> v ∈ map video_id df)
  /\ (forall r, r ∈ drop_duplicates df ->
        exists before after,
          df = before ++ r :: after /\ (video_id r ∉ map video_id before))
  /\ drop_duplicates df `sublist_of` df
  /\ (forall youtube queries,
        result (search_all youtube queries) = Return df ->
        forall r, r ∈ drop_duplicates df ->
          exists earlier later found,
            queries = earlier ++ query r :: later
            /\ search_videos_for_query youtube (query r) 40 = Return found
            /\ r ∈ found
            /\ forall q found',
                 q ∈ earlier ->
                 search_videos_for_query youtube q 40 = Return found' ->
                 video_id r ∉ map video_id found').
Proof.
  rewrite drop_duplicates_unseen.
  split; [apply keep_unseen_NoDup|].
  split; [intros v; rewrite keep_unseen_ids; split;
          [tauto|intros ?; split; [done|apply not_elem_of_nil]]|].
  split; [intros r Hr; destruct (keep_unseen_first _ _ _ Hr)
            as [before [after [? [? _]]]]; by exists before, after|].
  split; [apply keep_unseen_sublist|].
  intros youtube queries Hall r Hr.
  destruct (search_all_returns _ _ _ Hall) as [per_query [Hper Hdf]].
  destruct (keep_unseen_first _ _ _ Hr) as [before [after [Hsplit [Hfirst _]]]].
  rewrite Hdf in Hsplit.
  destruct (first_occurrence_in_concat _ _ _ _ Hsplit)
    as [earlier [found [later [-> [Hin Hpre]]]]].
  apply Forall2_app_inv_r in Hper as [qs1 [qs2 [Hqs1 [Hqs2 ->]]]].
  apply Forall2_cons_inv_r in Hqs2 as [q [qs3 [Hq [Hqs3 ->]]]].
  pose proof (search_rows_query _ _ _ _ _ Hq Hin) as Hquery. subst q.
  exists qs1, qs3, found. split; [done|]. split; [done|]. split; [done|].
  intros q found' Hqin Hfound' Hid. apply Hfirst.
  apply list_elem_of_lookup in Hqin as [k Hk].
  destruct (Forall2_lookup_l _ _ _ _ _ Hqs1 Hk) as [found'' [Hk' Hsame]].
  rewrite Hfound' in Hsame. injection Hsame as <-.
  destruct Hpre as [rest ->]. rewrite map_app, elem_of_app. left.
  apply list_elem_of_fmap in Hid as [r' [-> Hr']].
  apply list_elem_of_fmap. exists r'. split; [done|].
  apply list_elem_of_In, in_concat. exists found'.
  split; apply list_elem_of_In; [by apply list_elem_of_lookup_2 in Hk'|done].
Qed.

Lemma drop_duplicates_keeps_first_witness :
  exists earlier later found,
    QUERIES = earlier ++ query scenario_first :: later
    /\ search_videos_for_query scenario_youtube (query scenario_first) 40
       = Return found
    /\ scenario_first ∈ found
    /\ forall q found',
         q ∈ earlier ->
         search_videos_for_query scenario_youtube q 40 = Return found' ->
         video_id scenario_first ∉ map video_id found'.
Proof.
  apply (proj2 (proj2 (proj2 (proj2 (drop_duplicates_keeps_first scenario_rows))))
           scenario_youtube QUERIES); [reflexivity|].
  vm_compute. left.
Defined.

Lemma zip_with_fillna {A} (f : A -> cell -> A) (g h : A -> cell) (l : list A) :
  zip_with f l (fillna (map g l) (map h l))
  = map (fun x => f x (coalesce (g x) (h x))) l.
Proof.
  unfold fillna. induction l as [|x l IH]; [done|]. simpl.
  rewrite IH. f_equal. by destruct (g x).
Qed.

Lemma reconcile_rows df : reconcile df = map reconcile_row df.
Proof.
  unfold reconcile. rewrite !zip_with_fillna, !map_map. reflexivity.
Qed.

Lemma add_month_bucket_rows df : add_month_bucket df = map bucket_row df.
Proof.
  unfold add_month_bucket. induction df as [|r df IH]; [done|].
  simpl. by rewrite IH.
Qed.

Lemma joined_pairing df details_df :
  flat_map
    (fun c =>
       match filter (fun d => detail_video_id d = video_id c) details_df with
       | [] => [joined c None]
       | matches => map (fun d => joined c (Some d)) matches
       end) df
  = map (fun p => joined (fst p) (snd p)) (pairing df details_df).
Proof.
  unfold pairing. induction df as [|c df IH]; [done|].
  cbn [flat_map]. rewrite map_app, IH. f_equal.
  destruct (filter _ details_df) as [|d ms]; [done|].
  by rewrite map_map.
Qed.

Lemma merge_details_pairing df details_df :
  details_df <> [] ->
  merge_details df details_df
  = Return (map (fun p => joined (fst p) (snd p)) (pairing df details_df)).
Proof.
  intros Hne. unfold merge_details. rewrite joined_pairing.
  by destruct details_df.
Qed.

Lemma pairing_matched df details_df c d :
  (c, d) ∈ pairing df details_df -> c ∈ df /\ matched details_df c d.
Proof.
  unfold pairing. intros Hin.
  apply list_elem_of_In, in_flat_map in Hin as [c' [Hc' Hin]].
  apply list_elem_of_In in Hc', Hin.
  destruct (filter _ details_df) as [|d' ms] eqn:Hf.
  - apply list_elem_of_singleton in Hin. injection Hin as -> ->.
    split; [done|]. simpl. intros d' Hd' Heq.
    eapply (filter_nil_not_elem_of _ _ d'); [exact Hf|exact Heq|exact Hd'].
  - apply list_elem_of_fmap in Hin as [d'' [[= -> ->] Hd'']].
    split; [done|]. simpl. rewrite <- Hf in Hd''.
    by apply list_elem_of_filter in Hd'' as [? ?].
Qed.

Lemma pairing_covers df details_df c :
  c ∈ df -> exists d, (c, d) ∈ pairing df details_df.
Proof.
  intros Hc. unfold pairing.
  destruct (filter (fun d => detail_video_id d = video_id c) details_df)
    as [|d ms] eqn:Hf.
  - exists None. apply list_elem_of_In, in_flat_map. exists c.
    split; [by apply list_elem_of_In|]. rewrite Hf. by left.
  - exists (Some d). apply list_elem_of_In, in_flat_map. exists c.
    split; [by apply list_elem_of_In|]. rewrite Hf. by left.
Qed.

Lemma reconciled_row c d : reconciled c d (bucket_row (reconcile_row (joined c d))).
Proof. unfold reconciled. by destruct d. Qed.

Lemma prints_write_nothing (prints rest : list event) :
  Forall (fun ev => exists line, ev = Print line) prints ->
  omap (fun ev => match ev with ToCsv _ t => Some t | _ => None end)
    (prints ++ rest)
  = omap (fun ev => match ev with ToCsv _ t => Some t | _ => None end) rest.
Proof. induction 1 as [|ev prints [line ->] _ IH]; [done|exact IH]. Qed.

(** What a table written by [main] is made of. *)
Lemma main_written_table youtube table :
  table ∈ written_candidates (main youtube) ->
  exists all_rows details_df merged,
    result (search_all youtube QUERIES) = Return all_rows
    /\ details_df <> []
    /\ merge_details (drop_duplicates all_rows) details_df = Return merged
    /\ table = add_month_bucket (reconcile merged).
Proof.
  unfold main, written_candidates, events, result.
  pose proof (search_all_events youtube QUERIES) as Hev. unfold events in Hev.
  destruct (search_all youtube QUERIES) as [evs [all_rows|e]].
  2: { run. rewrite <- (app_nil_r evs).
       rewrite prints_write_nothing by done. by intros ?%elem_of_nil. }
  pose proof (fun rest => prints_write_nothing evs rest Hev) as Hskip.
  run.
  destruct (drop_duplicates all_rows) as [|c df] eqn:Hdf.
  { simpl. rewrite Hskip. simpl. by intros ?%elem_of_nil. }
  destruct (fetch_video_details youtube (map video_id (c :: df)))
    as [details_df|e]; simpl.
  2: { rewrite Hskip. simpl. by intros ?%elem_of_nil. }
  destruct (merge_details (c :: df) details_df) as [merged|e] eqn:Hm; simpl.
  2: { rewrite Hskip. simpl. by intros ?%elem_of_nil. }
  rewrite Hskip. simpl. intros ->%list_elem_of_singleton.
  exists all_rows, details_df, merged. split; [done|].
  split; [|by rewrite Hdf].
  intros ->. discriminate Hm.
Qed.

(** A table written by [main] is made of the candidates the searches
    returned and of the detail rows the details requests returned for
    them. *)
Lemma main_written_details youtube table :
  table ∈ written_candidates (main youtube) ->
  exists all_rows details_df merged,
    result (search_all youtube QUERIES) = Return all_rows
    /\ fetch_video_details youtube (map video_id (drop_duplicates all_rows))
       = Return details_df
    /\ details_df <> []
    /\ merge_details (drop_duplicates all_rows) details_df = Return merged
    /\ table = add_month_bucket (reconcile merged).
Proof.
  unfold main, written_candidates, events, result.
  pose proof (search_all_events youtube QUERIES) as Hev. unfold events in Hev.
  destruct (search_all youtube QUERIES) as [evs [all_rows|e]].
  2: { run. rewrite <- (app_nil_r evs).
       rewrite prints_write_nothing by done. by intros ?%elem_of_nil. }
  pose proof (fun rest => prints_write_nothing evs rest Hev) as Hskip.
  run.
  destruct (drop_duplicates all_rows) as [|c df] eqn:Hdf.
  { simpl. rewrite Hskip. simpl. by intros ?%elem_of_nil. }
  destruct (fetch_video_details youtube (map video_id (c :: df)))
    as [details_df|e] eqn:Hdetails; simpl.
  2: { rewrite Hskip. simpl. by intros ?%elem_of_nil. }
  destruct (merge_details (c :: df) details_df) as [merged|e] eqn:Hm; simpl.
  2: { rewrite Hskip. simpl. by intros ?%elem_of_nil. }
  rewrite Hskip. simpl. intros ->%list_elem_of_singleton.
  exists all_rows, details_df, merged. split; [done|].
  split; [by rewrite Hdf|]. split; [|by rewrite Hdf].
  intros ->. discriminate Hm.
Qed.

(** C7: after the left join, the description, title and publish
    timestamp of every output row are the detail row's values where a
    detail row matched and the value is not null, and the candidate's
    values otherwise; the detail-specific columns are not part of the
    output rows.  This holds of the reconciliation step for every pair of
    tables, and of every row [main] writes, for the candidates the
    searches returned and the detail rows fetched for them. *)
Theorem reconcile_coalesces_fields (df : list CandidateRow)
    (details_df : list DetailRow) :
  details_df <> [] ->
  exists merged,
    merge_details df details_df = Return merged
    /\ Forall2 (fun p o => reconciled (fst p) (snd p) o)
         (pairing df details_df) (add_month_bucket (reconcile merged))
    /\ (forall c d, (c, d) ∈ pairing df details_df ->
          c ∈ df /\ matched details_df c d)
    /\ (forall c, c ∈ df -> exists d, (c, d) ∈ pairing df details_df)
    /\ forall youtube table o,
         table ∈ written_candidates (main youtube) -> o ∈ table ->
         exists all_rows details c d,
           result (search_all youtube QUERIES) = Return all_rows
           /\ fetch_video_details youtube
                (map video_id (drop_duplicates all_rows)) = Return details
           /\ c ∈ drop_duplicates all_rows
           /\ matched details c d
           /\ reconciled c d o.
Proof.
  intros Hne. eexists. split; [by apply merge_details_pairing|].
  split; [|split; [apply pairing_matched|split; [apply pairing_covers|]]].
  - rewrite reconcile_rows, add_month_bucket_rows, !map_map.
    apply Forall2_fmap_r, Forall_Forall2_diag, Forall_forall.
    intros [c d] _. apply reconciled_row.
  - intros youtube table o Htable Ho.
    destruct (main_written_details _ _ Htable)
      as [all_rows [details [merged [Hall [Hfetch [Hd [Hm ->]]]]]]].
    rewrite merge_details_pairing in Hm by done. injection Hm as <-.
    rewrite reconcile_rows, add_month_bucket_rows, !map_map in Ho.
    apply list_elem_of_fmap in Ho as [[c d] [-> Hp]].
    destruct (pairing_matched _ _ _ _ Hp) as [Hc Hmatch].
    exists all_rows, details, c, d. split; [done|]. split; [done|].
    split; [done|]. split; [done|]. apply reconciled_row.
Qed.

Lemma reconcile_coalesces_fields_witness :
  exists merged,
    merge_details (drop_duplicates scenario_rows) scenario_details = Return merged
    /\ map o_title (add_month_bucket (reconcile merged))
       = [Some "full title"; Some "other"]
    /\ Forall2 (fun p o => reconciled (fst p) (snd p) o)
         (pairing (drop_duplicates scenario_rows) scenario_details)
         (add_month_bucket (reconcile merged)).
Proof.
  destruct (reconcile_coalesces_fields (drop_duplicates scenario_rows)
              scenario_details) as [merged [Hm [Hall _]]]; [discriminate|].
  exists merged. split; [exact Hm|]. split; [|exact Hall].
  vm_compute in Hm. injection Hm as <-. reflexivity.
Defined.

Lemma str_slice_from_0 stop s : str_slice 0 stop s = str_prefix stop s.
Proof. by destruct s. Qed.

Lemma str_prefix_substring n s : str_prefix n s = String.substring 0 n s.
Proof.
  revert s. induction n as [|n IH]; intros [|c s]; simpl; try done.
  by rewrite IH.
Qed.

Lemma str_prefix_length n s :
  n <= String.length s -> String.length (str_prefix n s) = n.
Proof.
  revert s. induction n as [|n IH]; intros [|c s]; simpl; try done; try lia.
  intros Hn. rewrite IH; lia.
Qed.

Lemma str_prefix_split n s : exists rest, s = str_prefix n s +:+ rest.
Proof.
  revert s. induction n as [|n IH]; intros s.
  - exists s. by destruct s.
  - destruct s as [|c s]; [by exists ""|].
    destruct (IH s) as [rest Hrest]. exists rest.
    exact (f_equal (String c) Hrest).
Qed.

Lemma str_prefix_short n s : String.length s <= n -> str_prefix n s = s.
Proof.
  revert s. induction n as [|n IH]; intros [|c s]; simpl; try done; try lia.
  intros Hn. rewrite IH; [done|lia].
Qed.

(** C8: the month bucket of a publish timestamp is its first seven
    characters when it has at least seven, and the whole string when it
    is shorter; nothing is validated, so a malformed timestamp gives a
    malformed bucket. *)
Theorem month_bucket_first_seven :
  (forall s,
     str_slice_0_7 (Some s) = Some (String.substring 0 7 s)
     /\ (7 <= String.length s ->
         exists bucket rest,
           str_slice_0_7 (Some s) = Some bucket
           /\ String.length bucket = 7 /\ s = bucket +:+ rest)
     /\ (String.length s < 7 -> str_slice_0_7 (Some s) = Some s))
  /\ (forall youtube table o,
        table ∈ written_candidates (main youtube) -> o ∈ table ->
        month_bucket o = str_slice_0_7 (o_publish_date o))
  /\ str_slice_0_7 (Some "last Tuesday") = Some "last Tu".
Proof.
  split; [|split; [|reflexivity]].
  - intros s. change (str_slice_0_7 (Some s)) with (Some (str_slice 0 7 s)).
    rewrite str_slice_from_0.
    split; [by rewrite str_prefix_substring|]. split.
    + intros Hlen. destruct (str_prefix_split 7 s) as [rest Hrest].
      exists (str_prefix 7 s), rest. split; [done|].
      split; [by apply str_prefix_length|done].
    + intros Hlen. rewrite str_prefix_short; [done|lia].
  - intros youtube table o Htable Ho.
    destruct (main_written_table _ _ Htable) as [_ [_ [merged [_ [_ [_ ->]]]]]].
    rewrite add_month_bucket_rows in Ho.
    by apply list_elem_of_fmap in Ho as [r [-> _]].
Qed.

Lemma month_bucket_first_seven_witness :
  (exists bucket rest,
     str_slice_0_7 (Some "2025-09-01T08:00:00Z") = Some bucket
     /\ String.length bucket = 7 /\ "2025-09-01T08:00:00Z" = bucket +:+ rest)
  /\ str_slice_0_7 (Some "2025") = Some "2025".
Proof.
  destruct month_bucket_first_seven as [Hs _]. split.
  - apply (proj1 (proj2 (Hs "2025-09-01T08:00:00Z"))). simpl. lia.
  - apply (proj2 (proj2 (Hs "2025"))). simpl. lia.
Defined.

Lemma search_all_without_items youtube queries :
  (forall q, q ∈ queries ->
     exists items, search_list youtube q 40 START_DATE END_DATE = Return items
                   /\ default [] items = []) ->
  search_all youtube queries
  = (map (fun q => Print ("Searching for query: " +:+ q)) queries, Return []).
Proof.
  induction queries as [|q queries IH]; intros Hnone; [done|].
  simpl. run. unfold search_videos_for_query.
  destruct (Hnone q) as [items [-> ->]]; [by left|]. simpl.
  rewrite IH by (intros q' Hq'; apply Hnone; by right).
  simpl. by rewrite app_nil_r.
Qed.

(** C4, as stated, fails: a sheet on which the flag column is not filled
    in has no row whose flag is [1], yet loading drops the column that
    holds no value and the run ends with the missing-column [ValueError],
    without the message for an empty selection. *)
Lemma unfilled_flag_column_raises_instead_of_printing :
  core_rows unflagged_sheet = []
  /\ FetchCoreTranscripts.main_cli (reads unflagged_sheet) scenario_api
       "youtube_core.csv" "out.csv"
     = ([], Raise (ValueError "Input CSV must contain a 'Core_video' column.")).
Proof. split; reflexivity. Qed.

(** C4, amended: when every query returns no items the sampler prints its
    message and ends without writing a file; when the table the fetcher
    loads is well formed, has the two required columns and no row whose
    flag is [1], the fetcher prints its message and ends without writing
    a file. *)
Theorem empty_input_ends_early :
  (forall youtube,
     (forall q, q ∈ QUERIES ->
        exists items, search_list youtube q 40 START_DATE END_DATE = Return items
                      /\ default [] items = []) ->
     result (main youtube) = Return tt
     /\ last (events (main youtube))
        = Some (Print "No videos found in the specified window/queries.")
     /\ written_candidates (main youtube) = [])
  /\ (forall read_csv api input output df,
        FetchCoreTranscripts.load_core_csv read_csv input = Return df ->
        well_formed df = true ->
        "Core_video" ∈ columns df ->
        "video_id" ∈ columns df ->
        (forall r, r ∈ rows df -> flagged df r = false) ->
        FetchCoreTranscripts.main_cli read_csv api input output
        = ([FetchCoreTranscripts.Print "No rows with Core_video = 1 found."],
           Return tt)
        /\ written (FetchCoreTranscripts.main_cli read_csv api input output) = []).
Proof.
  split.
  - intros youtube Hnone. unfold main.
    rewrite (search_all_without_items _ _ Hnone). by vm_compute.
  - intros read_csv api input output df Hload _ Hflag Hid Hnone.
    assert (Hrun : FetchCoreTranscripts.main_cli read_csv api input output
                   = ([FetchCoreTranscripts.Print
                         "No rows with Core_video = 1 found."], Return tt)).
    { unfold FetchCoreTranscripts.main_cli. rewrite Hload. run.
      by rewrite (proj2 (main_without_selected_rows api output df Hnone)
                    Hflag Hid). }
    by rewrite Hrun.
Qed.

Lemma empty_input_ends_early_witness :
  written_candidates (main empty_youtube) = []
  /\ FetchCoreTranscripts.main_cli
       (reads {| columns := ["video_id"; "Core_video"];
                 rows := [[Some "v1"; Some "0"]; [Some "v2"; None]] |})
       scenario_api "youtube_core.csv" "out.csv"
     = ([FetchCoreTranscripts.Print "No rows with Core_video = 1 found."],
        Return tt).
Proof.
  destruct empty_input_ends_early as [Hsampler Hfetcher]. split.
  - apply (Hsampler empty_youtube). intros q _. by exists (Some []).
  - apply (Hfetcher _ scenario_api "youtube_core.csv" "out.csv"
             {| columns := ["video_id"; "Core_video"];
                rows := [[Some "v1"; Some "0"]; [Some "v2"; None]] |}).
    + reflexivity.
    + reflexivity.
    + compute_done.
    + compute_done.
    + intros r Hr. repeat (apply elem_of_cons in Hr as [->|Hr]; [reflexivity|]).
      by apply elem_of_nil in Hr.
Defined.

End Sampler.

(** ** More on the transcript fetcher *)

Section FetcherRuns.
Import FetchCoreTranscripts.

(** The calls of one resolution, case by case. *)
Lemma get_transcript_trace ctor vid :
  exists n, 1 <= n <= 5
            /\ events (get_transcript ctor vid) = take n (full_call_sequence vid)
            /\ (n = 1 <-> exists e, ctor = Raise e).
Proof.
  assert (Hret : forall (api : Client) n, 2 <= n ->
            n = 1 <-> exists e, Return api = Raise e).
  { intros api n Hn. split; [lia|]. by intros [e He]. }
  destruct ctor as [api|e0].
  2: { exists 1. rewrite constructor_raises. split; [lia|]. split; [done|].
       split; [by exists e0|done]. }
  destruct (fetch api vid LANGS) as [snippets|e] eqn:H.
  { exists 2. split; [lia|]. split; [|by apply Hret; lia].
    by erewrite primary_returns. }
  destruct (expected_absence e) eqn:He.
  2: { exists 2. split; [lia|]. split; [|by apply Hret; lia].
       by erewrite primary_raises_unexpected. }
  destruct (list_ api vid) as [transcripts|e1] eqn:Hl.
  2: { exists 3. split; [lia|]. split; [|by apply Hret; lia].
       by erewrite fallback_list_raises. }
  destruct (find_generated_transcript transcripts LANGS) as [gen|e2] eqn:Hf.
  2: { exists 4. split; [lia|]. split; [|by apply Hret; lia].
       by erewrite fallback_find_raises. }
  destruct (transcript_fetch gen) as [snippets|e3] eqn:Hg.
  - exists 5. split; [lia|]. split; [|by apply Hret; lia].
    by erewrite fallback_returns.
  - exists 5. split; [lia|]. split; [|by apply Hret; lia].
    by erewrite fallback_fetch_raises.
Qed.

(** X1: whatever the library does, one resolution makes its calls in the
    fixed order constructor, primary fetch, listing, search for a
    generated transcript, fetch of it, stopping somewhere along that
    sequence: at least the constructor call, at most five calls, no call
    twice, every call with the given identifier and the fixed language
    list. *)
Theorem get_transcript_call_sequence (ctor : outcome Client) (vid : cell) :
  events (get_transcript ctor vid) `prefix_of` full_call_sequence vid
  /\ 1 <= length (events (get_transcript ctor vid)) <= 5
  /\ NoDup (events (get_transcript ctor vid)).
Proof.
  destruct (get_transcript_trace ctor vid) as [n [Hn [-> _]]].
  split; [apply prefix_take|]. split.
  - rewrite length_take. unfold full_call_sequence. simpl. lia.
  - eapply sublist_NoDup; [|apply sublist_take].
    unfold full_call_sequence.
    repeat (apply NoDup_cons_2;
            [rewrite ?not_elem_of_cons; repeat split;
             try discriminate; apply not_elem_of_nil|]).
    apply NoDup_nil_2.
Qed.

Lemma text_of_trimmed snippets :
  starts_with_space (text_of snippets) = false
  /\ ends_with_space (text_of snippets) = false.
Proof.
  unfold text_of.
  destruct (strip_trimmed (join " " (map getattr_text snippets))) as [_ H].
  exact H.
Qed.

(** X2: the string a resolution returns never starts or ends with
    whitespace, whichever tier produced it. *)
Theorem get_transcript_result_trimmed (api : Client) (vid : cell) :
  exists s,
    result (get_transcript (Return api) vid) = Return s
    /\ starts_with_space s = false /\ ends_with_space s = false.
Proof.
  destruct (fetch api vid LANGS) as [snippets|e] eqn:H.
  { erewrite primary_returns by done. eexists. split; [done|].
    apply text_of_trimmed. }
  destruct (expected_absence e) eqn:He.
  2: { erewrite primary_raises_unexpected by done. by exists "". }
  destruct (list_ api vid) as [transcripts|e1] eqn:Hl.
  2: { erewrite fallback_list_raises by done. by exists "". }
  destruct (find_generated_transcript transcripts LANGS) as [gen|e2] eqn:Hf.
  2: { erewrite fallback_find_raises by done. by exists "". }
  destruct (transcript_fetch gen) as [snippets|e3] eqn:Hg.
  - erewrite fallback_returns by done. eexists. split; [done|].
    apply text_of_trimmed.
  - erewrite fallback_fetch_raises by done. by exists "".
Qed.


Lemma get_transcript_one_fetch api vid :
  fetched_ids (events (get_transcript (Return api) vid)) = [vid]
  /\ constructions (events (get_transcript (Return api) vid)) = 1.
Proof.
  destruct (get_transcript_trace (Return api) vid) as [n [Hn [-> Hone]]].
  assert (n <> 1) by (intros Hn1; apply Hone in Hn1 as [e He]; discriminate He).
  destruct n as [|[|[|[|[|[|n]]]]]]; try lia; by split.
Qed.

Lemma fetch_transcripts_step api k vid vids :
  fetch_transcripts api k (vid :: vids)
  = match get_transcript (api k) vid with
    | (calls, Return t) =>
        match fetch_transcripts api (S k) vids with
        | (calls', Return ts) => (calls ++ calls', Return (t :: ts))
        | (calls', Raise e) => (calls ++ calls', Raise e)
        end
    | (calls, Raise e) => (calls, Raise e)
    end.
Proof.
  simpl. run. destruct (get_transcript (api k) vid) as [calls [t|e]]; [|done].
  destruct (fetch_transcripts api (S k) vids) as [calls' [ts|e]]; [|done].
  simpl. by rewrite app_nil_r.
Qed.

Lemma constructions_app evs evs' :
  constructions (evs ++ evs') = constructions evs + constructions evs'.
Proof. unfold constructions. by rewrite filter_app, length_app. Qed.

Lemma fetch_transcripts_order api k vids :
  clients_available api ->
  fetched_ids (events (fetch_transcripts api k vids)) = vids
  /\ constructions (events (fetch_transcripts api k vids)) = length vids.
Proof.
  intros Hok. revert k. induction vids as [|vid vids IH]; intros k; [done|].
  rewrite fetch_transcripts_step. destruct (Hok k) as [c Hc]. rewrite Hc.
  destruct (get_transcript_one_fetch c vid) as [Hf Hn].
  destruct (get_transcript_returns c vid) as [t Ht].
  destruct (IH (S k)) as [IHf IHn].
  unfold events, result in *.
  destruct (get_transcript (Return c) vid) as [calls o]. simpl in *. subst o.
  destruct (fetch_transcripts api (S k) vids) as [calls' [ts|e]]; simpl in *.
  - unfold fetched_ids in *. rewrite omap_app, constructions_app, Hf, Hn, IHf, IHn.
    done.
  - unfold fetched_ids in *. rewrite omap_app, constructions_app, Hf, Hn, IHf, IHn.
    done.
Qed.

(** The events of a run that reaches [to_csv]. *)
Lemma main_events api output df :
  well_formed df = true ->
  "Core_video" ∈ columns df ->
  "video_id" ∈ columns df ->
  ~ ("transcript" ∈ columns df /\ "transcript_x" ∈ columns df) ->
  clients_available api ->
  core_rows df <> [] ->
  exists table,
    events (main api output df)
    = events (fetch_transcripts api 0 (core_ids df))
        ++ [ToCsv output table; Print ("Saved with transcripts to " +:+ output)].
Proof.
  intros Hwf Hflag Hid Hlabels Hok Hcore.
  destruct (decide ("transcript" ∈ columns df)) as [Hold|Hnew].
  - rewrite main_writes_renamed by tauto. by eexists.
  - rewrite main_writes by done. by eexists.
Qed.

(** X3: in a run that reaches [to_csv], the transcripts are fetched for
    the selected rows only, one row after the other in table order, with
    one instantiation of the client class and one primary fetch per
    selected row. *)
Theorem main_fetches_selected_rows_in_order (api : nat -> outcome Client)
    (output : string) (df : DataFrame) :
  well_formed df = true ->
  "Core_video" ∈ columns df ->
  "video_id" ∈ columns df ->
  ~ ("transcript" ∈ columns df /\ "transcript_x" ∈ columns df) ->
  clients_available api ->
  core_rows df <> [] ->
  fetched_ids (events (main api output df)) = core_ids df
  /\ constructions (events (main api output df)) = length (core_rows df).
Proof.
  intros Hwf Hflag Hid Hlabels Hok Hcore.
  destruct (main_events api output df) as [table ->]; try done.
  destruct (fetch_transcripts_order api 0 (core_ids df) Hok) as [Hf Hn].
  unfold fetched_ids in *. rewrite omap_app, constructions_app, Hf, Hn. simpl.
  split; [by rewrite app_nil_r|].
  unfold core_ids, constructions. rewrite length_map. simpl. lia.
Qed.

Lemma main_fetches_selected_rows_in_order_witness :
  fetched_ids (events (main scenario_api "out.csv" scenario_table))
  = [Some "v1"; Some "v3"]
  /\ constructions (events (main scenario_api "out.csv" scenario_table)) = 2.
Proof.
  apply (main_fetches_selected_rows_in_order scenario_api "out.csv" scenario_table).
  - reflexivity.
  - compute_done.
  - compute_done.
  - compute_done.
  - intros [|k]; eexists; reflexivity.
  - discriminate.
Defined.

Lemma fetch_transcripts_raises api e vids n k :
  k < length vids ->
  api (n + k) = Raise e ->
  (forall i, i < k -> exists c, api (n + i) = Return c) ->
  result (fetch_transcripts api n vids) = Raise e.
Proof.
  revert n k. induction vids as [|vid vids IH]; intros n k Hk Hfail Hbefore;
    [simpl in Hk; lia|].
  rewrite fetch_transcripts_step. destruct k as [|k].
  - rewrite Nat.add_0_r in Hfail. rewrite Hfail. done.
  - destruct (Hbefore 0) as [c Hc]; [lia|]. rewrite Nat.add_0_r in Hc.
    rewrite Hc. destruct (get_transcript_returns c vid) as [t Ht].
    unfold result in *.
    destruct (get_transcript (Return c) vid) as [calls o]. simpl in Ht. subst o.
    specialize (IH (S n) k).
    destruct (fetch_transcripts api (S n) vids) as [calls' [ts|e']]; simpl in *.
    + assert (Return ts = Raise e) as Habs; [|discriminate Habs].
      apply IH; [lia|rewrite <- Hfail; f_equal; lia|].
      intros i Hi. destruct (Hbefore (S i)) as [c' Hc']; [lia|].
      exists c'. rewrite <- Hc'. f_equal. lia.
    + apply IH; [lia|rewrite <- Hfail; f_equal; lia|].
      intros i Hi. destruct (Hbefore (S i)) as [c' Hc']; [lia|].
      exists c'. rewrite <- Hc'. f_equal. lia.
Qed.

Lemma calls_write_nothing (calls rest : list event) :
  Forall (fun ev => exists c, ev = Api c) calls ->
  omap (fun ev => match ev with ToCsv _ t => Some t | _ => None end)
    (calls ++ rest)
  = omap (fun ev => match ev with ToCsv _ t => Some t | _ => None end) rest.
Proof. induction 1 as [|ev calls [c ->] _ IH]; [done|exact IH]. Qed.

Lemma calls_print_nothing (calls : list event) line :
  Forall (fun ev => exists c, ev = Api c) calls -> Print line ∉ calls.
Proof.
  intros Hcalls Hin. rewrite Forall_forall in Hcalls.
  destruct (Hcalls _ Hin) as [c Hc]. discriminate Hc.
Qed.

(** X4: for a well-formed table, whatever the library and the write of
    the file do: a run hands at most one table to [to_csv]; a run that
    ends in an exception has either handed over none, or ends with the
    exception [to_csv] raised for the table it was handed; such a run
    makes no call of [print], so the closing line appears only after a
    write that returned; and when the write succeeds the run is the one
    [main] describes. *)
Theorem main_saving_hands_over_once
    (to_csv : string -> DataFrame -> outcome unit)
    (api : nat -> outcome Client) (output : string) (df : DataFrame) :
  well_formed df = true ->
  length (written (main_saving to_csv api output df)) <= 1
  /\ (forall e, result (main_saving to_csv api output df) = Raise e ->
        written (main_saving to_csv api output df) = []
        \/ exists table,
             written (main_saving to_csv api output df) = [table]
             /\ to_csv output table = Raise e)
  /\ (forall e, result (main_saving to_csv api output df) = Raise e ->
        forall line, Print line ∉ events (main_saving to_csv api output df))
  /\ ((forall table, to_csv output table = Return tt) ->
      main_saving to_csv api output df = main api output df).
Proof.
  intros _. unfold main_saving, main, written, events, result.
  destruct (bool_decide ("Core_video" ∈ columns df)); simpl.
  2: { repeat split; try done; try lia; intros; try by left.
       apply not_elem_of_nil. }
  destruct (bool_decide ("video_id" ∈ columns df)); simpl.
  2: { repeat split; try done; try lia; intros; try by left.
       apply not_elem_of_nil. }
  destruct (column "Core_video" df) as [flags|e0]; run.
  2: { repeat split; try done; try lia; intros; try by left.
       apply not_elem_of_nil. }
  destruct (empty _); simpl.
  { repeat split; try done; try lia. }
  destruct (column "video_id" _) as [vids|e0]; simpl.
  2: { repeat split; try done; try lia; intros; try by left.
       apply not_elem_of_nil. }
  pose proof (fetch_transcripts_events api 0 vids) as Hcalls.
  unfold events in Hcalls.
  destruct (fetch_transcripts api 0 vids) as [calls [ts|e0]]; simpl in *.
  2: { rewrite <- (app_nil_r calls), calls_write_nothing by done.
       rewrite app_nil_r.
       repeat split; try done; simpl; try lia; intros; try by left.
       by apply calls_print_nothing. }
  destruct (select_columns _ _) as [right|e0]; simpl.
  2: { rewrite calls_write_nothing by done.
       repeat split; try done; simpl; try lia; intros; try by left.
       rewrite app_nil_r. by apply calls_print_nothing. }
  destruct (merge df right "video_id") as [merged|e0]; simpl.
  2: { rewrite calls_write_nothing by done.
       repeat split; try done; simpl; try lia; intros; try by left.
       rewrite app_nil_r. by apply calls_print_nothing. }
  destruct (to_csv output merged) as [[]|e0] eqn:Hto; simpl;
    rewrite calls_write_nothing by done.
  - repeat split; try done; simpl; lia.
  - split; [simpl; lia|]. split; [|split].
    + intros e [= <-]. right. by exists merged.
    + intros e _ line [Hin|Hin]%elem_of_app;
        [by apply (calls_print_nothing calls line)|].
      apply list_elem_of_singleton in Hin. discriminate Hin.
    + intros Hok. rewrite Hok in Hto. discriminate Hto.
Qed.

Lemma main_saving_hands_over_once_witness :
  exists table,
    written (main_saving (fun _ _ => Raise (OtherException "PermissionError"))
               scenario_api "out.csv" scenario_table) = [table]
    /\ result (main_saving (fun _ _ => Raise (OtherException "PermissionError"))
                 scenario_api "out.csv" scenario_table)
       = Raise (OtherException "PermissionError").
Proof.
  destruct (main_saving_hands_over_once
              (fun _ _ => Raise (OtherException "PermissionError"))
              scenario_api "out.csv" scenario_table eq_refl)
    as (_ & Hfail & _ & _).
  destruct (Hfail (OtherException "PermissionError") eq_refl)
    as [Hnone|[table [Htable _]]].
  - discriminate Hnone.
  - exists table. split; [exact Htable|reflexivity].
Defined.

(** X5: on a well-formed table, when the client class cannot be
    instantiated for one of the selected rows, after it could for the
    rows before, the run ends with that exception and no file is
    written, however many transcripts were already fetched; the write is
    never reached, so the same holds whatever [to_csv] would have
    done. *)
Theorem constructor_failure_aborts_run (api : nat -> outcome Client)
    (output : string) (df : DataFrame) (k : nat) (e : exn) :
  well_formed df = true ->
  "Core_video" ∈ columns df ->
  "video_id" ∈ columns df ->
  k < length (core_rows df) ->
  api k = Raise e ->
  (forall i, i < k -> exists c, api i = Return c) ->
  result (main api output df) = Raise e
  /\ written (main api output df) = []
  /\ fetched_ids (events (main api output df)) = take k (core_ids df)
  /\ (forall to_csv, main_saving to_csv api output df = main api output df).
Proof.
  intros _ Hflag Hid Hk Hfail Hbefore.
  assert (Hsaving : forall to_csv,
             main_saving to_csv api output df
             = (events (fetch_transcripts api 0 (core_ids df)), Raise e)).
  { intros to_csv.
    unfold main_saving. rewrite !bool_decide_true by done. simpl.
    destruct (col_index_elem _ _ Hflag) as [i [Hi _]].
    destruct (col_index_elem _ _ Hid) as [j [Hj _]].
    unfold column at 1. rewrite Hi. run.
    rewrite (core_df_selected df i Hi).
    assert (Hne : empty {| columns := columns df; rows := core_rows df |} = false).
    { unfold empty. simpl. destruct (columns df); [by apply elem_of_nil in Hid|].
      destruct (core_rows df); [simpl in Hk; lia|done]. }
    rewrite Hne. unfold column. simpl. rewrite Hj. simpl.
    assert (Hids : map (get_cell j) (core_rows df) = core_ids df).
    { unfold core_ids. apply map_ext. intros r. unfold cell_of. by rewrite Hj. }
    rewrite Hids.
    pose proof (fetch_transcripts_raises api e (core_ids df) 0 k) as Hrun.
    unfold result, events in *.
    destruct (fetch_transcripts api 0 (core_ids df)) as [calls o]. simpl in *.
    rewrite Hrun; [done| |done|done].
    unfold core_ids. by rewrite length_map. }
  assert (Hmain : main api output df
                  = (events (fetch_transcripts api 0 (core_ids df)), Raise e)).
  { unfold main. rewrite !bool_decide_true by done. simpl.
    destruct (col_index_elem _ _ Hflag) as [i [Hi _]].
    destruct (col_index_elem _ _ Hid) as [j [Hj _]].
    unfold column at 1. rewrite Hi. run.
    rewrite (core_df_selected df i Hi).
    assert (Hne : empty {| columns := columns df; rows := core_rows df |} = false).
    { unfold empty. simpl. destruct (columns df); [by apply elem_of_nil in Hid|].
      destruct (core_rows df); [simpl in Hk; lia|done]. }
    rewrite Hne. unfold column. simpl. rewrite Hj. simpl.
    assert (Hids : map (get_cell j) (core_rows df) = core_ids df).
    { unfold core_ids. apply map_ext. intros r. unfold cell_of. by rewrite Hj. }
    rewrite Hids.
    pose proof (fetch_transcripts_raises api e (core_ids df) 0 k) as Hrun.
    unfold result, events in *.
    destruct (fetch_transcripts api 0 (core_ids df)) as [calls o]. simpl in *.
    rewrite Hrun; [done| |done|done].
    unfold core_ids. by rewrite length_map. }
  split; [by rewrite Hmain|].
  split.
  { rewrite Hmain. unfold written, events. simpl.
    rewrite <- (app_nil_r (fetch_transcripts api 0 (core_ids df)).1).
    by rewrite calls_write_nothing by apply fetch_transcripts_events. }
  rewrite Hmain. unfold events at 1. simpl. clear Hmain.
  assert (Hgen : forall vids n,
             k < length vids -> api (n + k) = Raise e ->
             (forall i, i < k -> exists c, api (n + i) = Return c) ->
             fetched_ids (events (fetch_transcripts api n vids)) = take k vids).
  { clear. revert k. intros k vids. revert k.
    induction vids as [|vid vids IH]; intros k n Hk Hfail Hbefore;
      [simpl in Hk; lia|].
    rewrite fetch_transcripts_step. destruct k as [|k].
    - rewrite Nat.add_0_r in Hfail. rewrite Hfail. done.
    - destruct (Hbefore 0) as [c Hc]; [lia|]. rewrite Nat.add_0_r in Hc.
      rewrite Hc. destruct (get_transcript_one_fetch c vid) as [Hf _].
      destruct (get_transcript_returns c vid) as [t Ht].
      unfold events, result in *.
      destruct (get_transcript (Return c) vid) as [calls o]. simpl in *. subst o.
      specialize (IH k (S n)).
      assert (Hrest : fetched_ids (fetch_transcripts api (S n) vids).1 = take k vids).
      { apply IH; [lia|rewrite <- Hfail; f_equal; lia|].
        intros i Hi. destruct (Hbefore (S i)) as [c' Hc']; [lia|].
        exists c'. rewrite <- Hc'. f_equal. lia. }
      destruct (fetch_transcripts api (S n) vids) as [calls' [ts|e']]; simpl in *;
        unfold fetched_ids in *; by rewrite omap_app, Hf, Hrest. }
  split; [|intros to_csv; by rewrite Hsaving].
  apply Hgen; [unfold core_ids; by rewrite length_map|done|done].
Qed.

Lemma constructor_failure_aborts_run_witness :
  result (main second_client_fails "out.csv" scenario_table)
  = Raise (OtherException "OSError")
  /\ written (main second_client_fails "out.csv" scenario_table) = []
  /\ fetched_ids (events (main second_client_fails "out.csv" scenario_table))
     = [Some "v1"]
  /\ (forall to_csv,
        main_saving to_csv second_client_fails "out.csv" scenario_table
        = main second_client_fails "out.csv" scenario_table).
Proof.
  apply (constructor_failure_aborts_run second_client_fails "out.csv"
           scenario_table 1 (OtherException "OSError")).
  - reflexivity.
  - compute_done.
  - compute_done.
  - simpl. lia.
  - reflexivity.
  - intros [|i] Hi; [by eexists|lia].
Defined.

End FetcherRuns.

Section FetcherMerge.
Import FetchCoreTranscripts.

Lemma filter_none {A} (P : A -> Prop) `{!forall a, Decision (P a)} (l : list A) :
  (forall a, a ∈ l -> ~ P a) -> filter P l = [].
Proof.
  induction l as [|a l IH]; intros Hnone; [done|].
  rewrite filter_cons, decide_False by (apply Hnone; by left).
  apply IH. intros b Hb. apply Hnone. by right.
Qed.

Lemma filter_unique_pair (pairs : list (cell * string)) k v t :
  NoDup (map fst pairs) ->
  pairs !! k = Some (v, t) ->
  filter (fun p => fst p = v) pairs = [(v, t)].
Proof.
  revert k. induction pairs as [|p pairs IH]; intros k Hnd Hk; [done|].
  simpl in Hnd. apply NoDup_cons in Hnd as [Hp Hnd].
  rewrite filter_cons. destruct k as [|k]; simpl in Hk.
  - injection Hk as ->. simpl. rewrite decide_True by done. f_equal.
    apply filter_none. intros q Hq Heq. apply Hp. simpl. rewrite <- Heq.
    apply list_elem_of_fmap. by exists q.
  - rewrite decide_False; [by apply (IH k)|].
    intros Heq. apply Hp. rewrite Heq.
    apply list_elem_of_fmap. exists (v, t). split; [done|].
    by apply list_elem_of_lookup_2 in Hk.
Qed.

(** X6: in the table that is written, every selected row carries the
    string that its own resolution returned; when the selected rows have
    pairwise distinct identifiers that is the only transcript the row is
    written with. *)
Theorem selected_rows_carry_their_transcript (api : nat -> outcome Client)
    (output : string) (df : DataFrame) :
  well_formed df = true ->
  "Core_video" ∈ columns df ->
  "video_id" ∈ columns df ->
  ~ ("transcript" ∈ columns df /\ "transcript_x" ∈ columns df) ->
  clients_available api ->
  core_rows df <> [] ->
  exists merged,
    written (main api output df) = [merged]
    /\ (forall k r, core_rows df !! k = Some r ->
          r ++ [Some (transcript_of (api k) (cell_of "video_id" df r))]
            ∈ rows merged)
    /\ (NoDup (core_ids df) ->
        forall k r t, core_rows df !! k = Some r ->
          r ++ [t] ∈ rows merged ->
          t = Some (transcript_of (api k) (cell_of "video_id" df r))).
Proof.
  intros Hwf Hflag Hid Hlabels Hok Hcore.
  destruct (main_written api output df) as [_ Hw]; try done.
  eexists. split; [exact Hw|]. simpl.
  assert (Hrow : forall k r, core_rows df !! k = Some r -> r ∈ rows df).
  { intros k r Hk. unfold core_rows in Hk. apply list_elem_of_lookup_2 in Hk.
    by apply list_elem_of_filter in Hk as [_ Hk]. }
  split.
  - intros k r Hk. apply list_elem_of_In, in_flat_map. exists r.
    split; [apply list_elem_of_In; by apply (Hrow k)|].
    apply list_elem_of_In.
    pose proof (resolved_lookup api df k r Hk) as Hp.
    apply list_elem_of_lookup_2 in Hp.
    unfold attach.
    match goal with
    | |- _ ∈ match filter ?P ?l with _ => _ end =>
        assert (Hf : (cell_of "video_id" df r,
                      transcript_of (api k) (cell_of "video_id" df r))
                       ∈ filter P l) by (by apply list_elem_of_filter);
        destruct (filter P l) as [|p ms]; [by apply elem_of_nil in Hf|]
    end.
    apply list_elem_of_fmap. eexists. split; [|exact Hf]. done.
  - intros Hnd k r t Hk Hin.
    apply list_elem_of_In, in_flat_map in Hin as [l [Hl Hin]].
    apply list_elem_of_In in Hin.
    destruct (attach_member _ _ _ _ Hin) as [t' Heq].
    apply app_inj_tail in Heq as [-> ->].
    pose proof (resolved_lookup api df k l Hk) as Hp.
    unfold attach in Hin.
    erewrite filter_unique_pair in Hin;
      [|by rewrite resolved_ids|exact Hp].
    simpl in Hin. apply list_elem_of_singleton in Hin.
    by apply app_inj_tail in Hin as [_ ->].
Qed.

Lemma selected_rows_carry_their_transcript_witness :
  exists merged,
    written (main scenario_api "out.csv" scenario_table) = [merged]
    /\ [Some "v1"; Some "1"; Some "keep"; Some "X"] ∈ rows merged.
Proof.
  destruct (selected_rows_carry_their_transcript scenario_api "out.csv"
              scenario_table) as [merged [Hw [Hown _]]].
  - reflexivity.
  - compute_done.
  - compute_done.
  - compute_done.
  - intros [|k]; eexists; reflexivity.
  - discriminate.
  - exists merged. split; [exact Hw|].
    apply (Hown 0 [Some "v1"; Some "1"; Some "keep"]). reflexivity.
Defined.

End FetcherMerge.

(** ** Loading the exported sheet *)

Section Loading.
Import FetchCoreTranscripts.

Lemma select_by_cons {A} b (mask : list bool) (x : A) l :
  select_by (b :: mask) (x :: l)
  = if b then x :: select_by mask l else select_by mask l.
Proof.
  unfold select_by. simpl. rewrite filter_cons. simpl.
  destruct b; by case_decide.
Qed.

Lemma kept_before_cons b mask i :
  kept_before (b :: mask) (S i) = (if b then 1 else 0) + kept_before mask i.
Proof.
  unfold kept_before. simpl. rewrite filter_cons.
  destruct b; by case_decide.
Qed.

(** Where a kept entry ends up. *)
Lemma select_by_lookup {A} (mask : list bool) (l : list A) i :
  mask !! i = Some true ->
  select_by mask l !! kept_before mask i = l !! i.
Proof.
  revert l i. induction mask as [|b mask IH]; intros l i Hi; [done|].
  destruct l as [|x l]; [by rewrite lookup_nil|].
  rewrite select_by_cons. destruct i as [|i].
  - simpl in Hi. injection Hi as ->. done.
  - rewrite kept_before_cons. simpl in Hi. destruct b; simpl; by apply IH.
Qed.

(** Where an entry of the selection comes from. *)
Lemma select_by_origin {A} (mask : list bool) (l : list A) j x :
  select_by mask l !! j = Some x ->
  exists i, mask !! i = Some true /\ l !! i = Some x /\ j = kept_before mask i.
Proof.
  revert l j. induction mask as [|b mask IH]; intros l j Hj; [done|].
  destruct l as [|y l]; [done|].
  rewrite select_by_cons in Hj. destruct b.
  - destruct j as [|j].
    + simpl in Hj. injection Hj as ->. by exists 0.
    + simpl in Hj. destruct (IH _ _ Hj) as [i [Hm [Hl ->]]].
      exists (S i). by rewrite kept_before_cons.
  - destruct (IH _ _ Hj) as [i [Hm [Hl ->]]].
    exists (S i). by rewrite kept_before_cons.
Qed.

Lemma select_by_length {A} (mask : list bool) (l : list A) :
  length l = length mask ->
  length (select_by mask l) = length (filter (fun b => b = true) mask).
Proof.
  revert l. induction mask as [|b mask IH]; intros [|x l] Hlen; try done.
  rewrite select_by_cons, filter_cons. simpl in Hlen.
  destruct b; case_decide; try done; simpl; by rewrite IH by lia.
Qed.

Lemma keep_mask_lookup (df : DataFrame) i :
  i < length (columns df) ->
  map (fun i => has_value i (rows df)) (seq 0 (length (columns df))) !! i
  = Some (has_value i (rows df)).
Proof.
  intros Hi. rewrite list_lookup_fmap, lookup_seq_lt by done. done.
Qed.

Lemma keep_mask_true (df : DataFrame) i :
  map (fun i => has_value i (rows df)) (seq 0 (length (columns df))) !! i
  = Some true ->
  has_value i (rows df) = true.
Proof.
  intros Hi. assert (Hlt : i < length (columns df)).
  { apply lookup_lt_Some in Hi. by rewrite length_map, length_seq in Hi. }
  rewrite keep_mask_lookup in Hi by done. by injection Hi.
Qed.

Lemma has_value_selected mask (table : list (list cell)) i :
  mask !! i = Some true ->
  has_value (kept_before mask i) (map (select_by mask) table) = has_value i table.
Proof.
  intros Hi. unfold has_value. induction table as [|r table IH]; [done|].
  simpl. rewrite IH. f_equal. unfold get_cell.
  by rewrite select_by_lookup.
Qed.

Lemma load_core_csv_parsed read_csv path df :
  parsed read_csv path df ->
  load_core_csv read_csv path = Return (strip_columns (dropna_columns df)).
Proof.
  unfold load_core_csv. intros [->|[[e ->] ->]]; reflexivity.
Qed.

(** X7: the table [load_core_csv] returns has the rows of the parsed
    table, each with one cell per remaining label; every column of the
    parsed table that holds a value is kept with its cells unchanged under
    its trimmed label, no remaining column is without a value, and no
    remaining label starts or ends with whitespace. *)
Theorem load_core_csv_cleans
    (read_csv : string -> read_options -> outcome DataFrame)
    (path : string) (df : DataFrame) :
  parsed read_csv path df ->
  Forall (fun r => length r = length (columns df)) (rows df) ->
  exists out,
    load_core_csv read_csv path = Return out
    /\ length (rows out) = length (rows df)
    /\ Forall (fun r => length r = length (columns out)) (rows out)
    /\ (forall i name,
          columns df !! i = Some name -> has_value i (rows df) = true ->
          exists j, columns out !! j = Some (strip name)
                    /\ map (get_cell j) (rows out) = map (get_cell i) (rows df))
    /\ (forall j, j < length (columns out) -> has_value j (rows out) = true)
    /\ (forall c, c ∈ columns out ->
          starts_with_space c = false /\ ends_with_space c = false).
Proof.
  intros Hparsed Hshape. eexists. split; [by apply load_core_csv_parsed|].
  unfold strip_columns, dropna_columns. simpl.
  set (keep := map (fun i => has_value i (rows df)) (seq 0 (length (columns df)))).
  assert (Hkeep : length keep = length (columns df))
    by (unfold keep; by rewrite length_map, length_seq).
  split; [by rewrite length_map|]. split; [|split; [|split]].
  - apply Forall_forall. intros r' Hr'.
    apply list_elem_of_fmap in Hr' as [r [-> Hr]].
    rewrite length_map, !select_by_length; [done|done|].
    rewrite Hkeep. by apply (proj1 (Forall_forall _ _) Hshape).
  - intros i name Hname Hval.
    assert (Hi : keep !! i = Some true).
    { unfold keep. rewrite keep_mask_lookup, Hval; [done|].
      by apply lookup_lt_Some in Hname. }
    exists (kept_before keep i). split.
    + by rewrite list_lookup_fmap, select_by_lookup, Hname.
    + rewrite map_map. apply map_ext. intros r. unfold get_cell.
      by rewrite select_by_lookup.
  - intros j Hj. rewrite length_map in Hj.
    destruct (lookup_lt_is_Some_2 _ _ Hj) as [name Hname].
    destruct (select_by_origin _ _ _ _ Hname) as [i [Hi [_ ->]]].
    rewrite has_value_selected by done. by apply keep_mask_true.
  - intros c Hc. apply list_elem_of_fmap in Hc as [name [-> _]].
    destruct (strip_trimmed name) as [_ H]. exact H.
Qed.

Lemma load_core_csv_cleans_witness :
  exists out,
    load_core_csv (reads exported_sheet) "youtube_core.csv" = Return out
    /\ length (rows out) = 2
    /\ (forall j, j < length (columns out) -> has_value j (rows out) = true).
Proof.
  destruct (load_core_csv_cleans (reads exported_sheet) "youtube_core.csv"
              exported_sheet) as [out [Hout [Hlen [_ [_ [Hval _]]]]]].
  - by left.
  - repeat constructor.
  - exists out. split; [exact Hout|]. split; [exact Hlen|exact Hval].
Defined.

(** X8: when no column of the parsed file whose trimmed label is
    [Core_video] holds a value (the flag cells are all empty, or the file
    has a header and no rows), loading drops the column and the run ends
    with the missing-column [ValueError], before any call or print, not
    with the message for an empty selection. *)
Theorem empty_flag_column_is_rejected
    (read_csv : string -> read_options -> outcome DataFrame)
    (api : nat -> outcome Client) (input output : string) (df : DataFrame) :
  parsed read_csv input df ->
  (forall i name, columns df !! i = Some name -> strip name = "Core_video" ->
     has_value i (rows df) = false) ->
  main_cli read_csv api input output
  = ([], Raise (ValueError "Input CSV must contain a 'Core_video' column.")).
Proof.
  intros Hparsed Hempty. unfold main_cli.
  rewrite (load_core_csv_parsed _ _ _ Hparsed). run. unfold main.
  rewrite bool_decide_false; [done|].
  simpl. intros Hin. apply list_elem_of_fmap in Hin as [name [Hstrip Hname]].
  apply list_elem_of_lookup in Hname as [j Hj].
  destruct (select_by_origin _ _ _ _ Hj) as [i [Hi [Hcol _]]].
  apply keep_mask_true in Hi. rewrite (Hempty i name) in Hi; done.
Qed.

Lemma empty_flag_column_is_rejected_witness :
  main_cli (reads unflagged_sheet) scenario_api "youtube_core.csv" "out.csv"
  = ([], Raise (ValueError "Input CSV must contain a 'Core_video' column.")).
Proof.
  apply (empty_flag_column_is_rejected (reads unflagged_sheet) scenario_api
           "youtube_core.csv" "out.csv" unflagged_sheet).
  - by left.
  - intros [|[|i]] name Hname Hstrip; simpl in Hname.
    + injection Hname as <-. discriminate Hstrip.
    + reflexivity.
    + discriminate Hname.
Defined.

End Loading.

(** ** More on the candidate sampler *)

Section SamplerRequests.
Import YoutubeAigcSampler.

Lemma batches_nil {A} fuel : batches fuel (@nil A) = [].
Proof. by destruct fuel. Qed.

Lemma batches_cons {A} fuel (x : A) l :
  batches (S fuel) (x :: l)
  = take 50 (x :: l) :: batches fuel (drop 50 (x :: l)).
Proof. reflexivity. Qed.

Lemma batch_count n :
  1 <= n -> S ((n - 50 + 49) / 50) = (n + 49) / 50.
Proof.
  intros Hn. destruct (decide (n <= 50)) as [Hle|Hgt].
  - replace (n - 50 + 49) with 49 by lia. change (49 / 50) with 0.
    apply (Nat.div_unique (n + 49) 50 1 (n - 1)); lia.
  - replace (n + 49) with (n - 50 + 49 + 1 * 50) by lia.
    rewrite Nat.div_add by lia. lia.
Qed.

(** The batches cut from a list, for any fuel that covers its length. *)
Lemma batches_fuel {A} fuel (l : list A) :
  length l <= fuel ->
  concat (batches fuel l) = l
  /\ Forall (fun b => 1 <= length b <= 50) (batches fuel l)
  /\ (forall i b, batches fuel l !! i = Some b ->
        S i < length (batches fuel l) -> length b = 50)
  /\ length (batches fuel l) = (length l + 49) / 50.
Proof.
  revert l. induction fuel as [|fuel IH]; intros l Hlen.
  - destruct l; [|simpl in Hlen; lia].
    repeat split; try done; intros i b Hb; by rewrite lookup_nil in Hb.
  - destruct l as [|x l].
    + rewrite batches_nil.
      repeat split; try done; intros i b Hb; by rewrite lookup_nil in Hb.
    + rewrite batches_cons.
      assert (Hdrop : length (drop 50 (x :: l)) <= fuel)
        by (rewrite length_drop; simpl in *; lia).
      destruct (IH _ Hdrop) as [Hcat [Hall [Hfull Hcount]]].
      split; [|split; [|split]].
      * rewrite concat_cons, Hcat. apply take_drop.
      * constructor; [|done].
        change (1 <= length (take 50 (x :: l)) <= 50).
        rewrite length_take. simpl length. lia.
      * intros [|i] b Hb Hi.
        -- change (Some (take 50 (x :: l)) = Some b) in Hb.
           apply (inj Some) in Hb. subst b. rewrite length_take.
           change (1 < S (length (batches fuel (drop 50 (x :: l))))) in Hi.
           destruct (drop 50 (x :: l)) as [|y rest] eqn:Hd;
             [rewrite batches_nil in Hi; simpl in Hi; lia|].
           assert (length (drop 50 (x :: l)) >= 1) by (rewrite Hd; simpl; lia).
           rewrite length_drop in *. lia.
        -- change (batches fuel (drop 50 (x :: l)) !! i = Some b) in Hb.
           change (S (S i) < S (length (batches fuel (drop 50 (x :: l))))) in Hi.
           apply (Hfull i b Hb). lia.
      * change (S (length (batches fuel (drop 50 (x :: l))))
                = (length (x :: l) + 49) / 50).
        rewrite Hcount, length_drop. apply batch_count. simpl. lia.
Qed.

(** X9: the identifiers are requested in consecutive batches: put back
    together the batches are the list, no batch is empty or longer than
    50, every batch but the last has exactly 50, and there are
    ceil(n / 50) of them. *)
Theorem batches_partition {A} (l : list A) :
  concat (batches (length l) l) = l
  /\ Forall (fun b => 1 <= length b <= 50) (batches (length l) l)
  /\ (forall i b, batches (length l) l !! i = Some b ->
        S i < length (batches (length l) l) -> length b = 50)
  /\ length (batches (length l) l) = (length l + 49) / 50.
Proof. by apply batches_fuel. Qed.

Lemma batches_partition_witness :
  concat (batches (length (seq 0 120)) (seq 0 120)) = seq 0 120
  /\ length (seq 0 50) = 50
  /\ length (batches (length (seq 0 120)) (seq 0 120)) = 3.
Proof.
  destruct (batches_partition (seq 0 120)) as (Hcat & _ & Hfull & Hcount).
  split; [exact Hcat|]. split.
  - apply (Hfull 0 (seq 0 50)); [reflexivity|vm_compute; lia].
  - rewrite Hcount. reflexivity.
Defined.

Lemma batches_map {A B} (f : A -> B) fuel (l : list A) :
  batches fuel (map f l) = map (map f) (batches fuel l).
Proof.
  revert l. induction fuel as [|fuel IH]; intros [|x l]; try done.
  change (map f (x :: l)) with (f x :: map f l) at 1. rewrite !batches_cons.
  change (f x :: map f l) with (map f (x :: l)).
  rewrite <- fmap_take, <- fmap_drop, IH. done.
Qed.

Lemma join_ids_strings (b : list string) :
  join_ids (map Some b) = Return (join "," b).
Proof.
  unfold join_ids.
  assert (Hall : for_each (fun c : cell =>
                             match c with
                             | Some s => Return s
                             | None => Raise (OtherException "TypeError")
                             end) (map Some b) = Return b).
  { induction b as [|s b IH]; [done|]. simpl. by rewrite IH. }
  by rewrite Hall.
Qed.

(** X10: when every request answers with one item per identifier asked
    for, in the order asked, the detail rows carry exactly the given
    identifiers in the given order: cutting the list into batches loses
    and repeats nothing. *)
Theorem fetch_video_details_keeps_every_id (youtube : Youtube)
    (ids : list string) :
  (forall b, b ∈ batches (length ids) ids ->
     exists items,
       videos_list youtube (join "," b) = Return items
       /\ map item_id (default [] items) = map (fun s => Some (Some s)) b) ->
  exists details_df,
    fetch_video_details youtube (map Some ids) = Return details_df
    /\ map detail_video_id details_df = map Some ids.
Proof.
  intros Hecho. unfold fetch_video_details.
  rewrite length_map, batches_map.
  destruct (batches_fuel (length ids) ids) as [Hcat _]; [done|].
  revert Hecho Hcat. generalize (batches (length ids) ids) as bs.
  intros bs Hecho Hcat. rewrite <- Hcat. clear Hcat.
  assert (Hgen : exists per_batch,
             for_each (fetch_batch youtube) (map (map Some) bs) = Return per_batch
             /\ map detail_video_id (concat per_batch) = map Some (concat bs)).
  { induction bs as [|b bs IH]; [by exists []|].
    destruct IH as [per_batch [Hrest Hids]].
    { intros b' Hb'. apply Hecho. by right. }
    destruct (Hecho b) as [items [Hitems Hecho_b]]; [by left|].
    exists (map detail_row (default [] items) :: per_batch). split.
    - simpl. unfold fetch_batch at 1. rewrite join_ids_strings, Hitems, Hrest.
      done.
    - rewrite !concat_cons, !map_app, Hids. f_equal.
      rewrite map_map.
      replace (map Some b) with (map get (map item_id (default [] items)))
        by (rewrite Hecho_b, map_map; done).
      by rewrite map_map. }
  destruct Hgen as [per_batch [Hrun Hids]].
  match goal with
  | |- context [for_each ?f ?l] =>
      change (for_each f l)
        with (for_each (fetch_batch youtube) (map (map Some) bs))
  end.
  rewrite Hrun. by eexists.
Qed.

Lemma fetch_video_details_keeps_every_id_witness :
  exists details_df,
    fetch_video_details scenario_youtube [Some "abc123"] = Return details_df
    /\ map detail_video_id details_df = [Some "abc123"].
Proof.
  apply (fetch_video_details_keeps_every_id scenario_youtube ["abc123"]).
  intros b Hb. eexists. split; [reflexivity|].
  apply list_elem_of_singleton in Hb. by subst b.
Defined.

Lemma search_rows_all q (items : list SearchItem) :
  Forall (fun it => videoId it <> None) items ->
  exists found,
    for_each (search_row q) items = Return found
    /\ map video_id found = map (fun it => get (videoId it)) items
    /\ Forall (fun r => query r = q) found.
Proof.
  induction 1 as [|it items Hit _ [found [Hrest [Hids Hq]]]]; [by exists []|].
  simpl. unfold search_row at 1.
  destruct (videoId it) as [vid|] eqn:Hvid; [|done].
  rewrite Hrest. eexists. split; [done|]. simpl. split; [by rewrite Hids|].
  by constructor.
Qed.

Lemma search_rows_missing q (items : list SearchItem) :
  Exists (fun it => videoId it = None) items ->
  for_each (search_row q) items = Raise (KeyError "videoId").
Proof.
  induction 1 as [it items Hit|it items _ IH]; simpl; unfold search_row at 1.
  - by rewrite Hit.
  - destruct (videoId it); [|done]. by rewrite IH.
Qed.

(** X11: a query whose items all carry a video identifier gives one row
    per item, in item order, with the item's identifier and the query as
    attribution; one item without the identifier key makes the whole
    query raise [KeyError], whatever the other items hold. *)
Theorem search_rows_follow_items (youtube : Youtube) (q : string) (n : nat)
    (items : option (list SearchItem)) :
  search_list youtube q n START_DATE END_DATE = Return items ->
  (Forall (fun it => videoId it <> None) (default [] items) ->
   exists found,
     search_videos_for_query youtube q n = Return found
     /\ map video_id found = map (fun it => get (videoId it)) (default [] items)
     /\ Forall (fun r => query r = q) found)
  /\ (Exists (fun it => videoId it = None) (default [] items) ->
      search_videos_for_query youtube q n = Raise (KeyError "videoId")).
Proof.
  intros Hitems. unfold search_videos_for_query. rewrite Hitems. split.
  - apply search_rows_all.
  - apply search_rows_missing.
Qed.

Lemma search_rows_follow_items_witness :
  exists found,
    search_videos_for_query scenario_youtube "AI tools for content creators" 40
    = Return found
    /\ map video_id found = [Some "abc123"; Some "xyz789"]
    /\ Forall (fun r => query r = "AI tools for content creators") found.
Proof.
  eapply (proj1 (search_rows_follow_items scenario_youtube
                   "AI tools for content creators" 40 _ eq_refl)).
  repeat constructor; discriminate.
Defined.

End SamplerRequests.

Section SamplerPipeline.
Import YoutubeAigcSampler.

(** X12: whatever the API does, a run of the sampler hands at most one
    table to [to_csv], and a run that ends in an exception (a failed
    search or details request, a missing identifier, a details answer
    without items) hands over none. *)
Theorem sampler_writes_nothing_on_failure (youtube : Youtube) :
  length (written_candidates (main youtube)) <= 1
  /\ forall e, result (main youtube) = Raise e ->
               written_candidates (main youtube) = [].
Proof.
  unfold main, written_candidates, events, result.
  pose proof (search_all_events youtube QUERIES) as Hev. unfold events in Hev.
  destruct (search_all youtube QUERIES) as [evs [all_rows|e0]].
  2: { run. rewrite <- (app_nil_r evs), prints_write_nothing by done.
       split; [simpl; lia|done]. }
  pose proof (fun rest => prints_write_nothing evs rest Hev) as Hskip.
  run. destruct (drop_duplicates all_rows) as [|c df].
  { simpl. rewrite Hskip. simpl. split; [lia|done]. }
  destruct (fetch_video_details youtube (map video_id (c :: df)))
    as [details_df|e0]; simpl.
  2: { rewrite Hskip. simpl. split; [lia|done]. }
  destruct (merge_details (c :: df) details_df) as [merged|e0]; simpl;
    rewrite Hskip; simpl; (split; [lia|done]).
Qed.

Lemma sampler_writes_nothing_on_failure_witness :
  written_candidates
    (main {| search_list := fun _ _ _ _ => Raise (OtherException "HttpError");
             videos_list := fun _ => Return None |}) = [].
Proof.
  eapply (proj2 (sampler_writes_nothing_on_failure _)). reflexivity.
Defined.

Lemma pairing_single df details_df :
  NoDup (map detail_video_id details_df) ->
  map fst (pairing df details_df) = df.
Proof.
  intros Hnd. unfold pairing. induction df as [|c df IH]; [done|].
  cbn [flat_map]. rewrite map_app, IH. clear IH.
  pose proof (count_le_1 (video_id c) _ Hnd) as Hle.
  rewrite (filter_map_comm detail_video_id _
             (fun d => detail_video_id d = video_id c)) in Hle by done.
  rewrite length_map in Hle.
  destruct (filter _ details_df) as [|d [|d' ms]]; [done|done|simpl in Hle; lia].
Qed.

Lemma output_ids_pairing merged df details_df :
  merge_details df details_df = Return merged ->
  map o_video_id (add_month_bucket (reconcile merged))
  = map video_id (map fst (pairing df details_df)).
Proof.
  unfold merge_details. rewrite joined_pairing.
  destruct details_df as [|d0 rest]; [done|]. intros [= <-].
  rewrite reconcile_rows, add_month_bucket_rows, !map_map.
  apply map_ext. by intros [c d].
Qed.

(** X13: when the details answer is not empty and names no identifier
    twice, the table that is written has exactly one row per
    deduplicated candidate, in candidate order, so its identifiers are
    pairwise distinct. *)
Theorem one_output_row_per_candidate (all_rows : list CandidateRow)
    (details_df : list DetailRow) :
  details_df <> [] ->
  NoDup (map detail_video_id details_df) ->
  exists merged,
    merge_details (drop_duplicates all_rows) details_df = Return merged
    /\ map o_video_id (add_month_bucket (reconcile merged))
       = map video_id (drop_duplicates all_rows)
    /\ NoDup (map o_video_id (add_month_bucket (reconcile merged))).
Proof.
  intros Hne Hnd. eexists. split; [by apply merge_details_pairing|].
  assert (Hids : map o_video_id
                   (add_month_bucket
                      (reconcile (map (fun p => joined (fst p) (snd p))
                                    (pairing (drop_duplicates all_rows) details_df))))
                 = map video_id (drop_duplicates all_rows)).
  { erewrite output_ids_pairing by (by apply merge_details_pairing).
    by rewrite pairing_single. }
  split; [exact Hids|]. rewrite Hids, drop_duplicates_unseen.
  apply keep_unseen_NoDup.
Qed.

Lemma one_output_row_per_candidate_witness :
  exists merged,
    merge_details (drop_duplicates scenario_rows) scenario_details = Return merged
    /\ map o_video_id (add_month_bucket (reconcile merged))
       = [Some "abc123"; Some "xyz789"].
Proof.
  destruct (one_output_row_per_candidate scenario_rows scenario_details)
    as [merged [Hm [Hids _]]].
  - discriminate.
  - compute_done.
  - exists merged. split; [exact Hm|]. rewrite Hids. reflexivity.
Defined.

(** X14: a details item without a snippet does not leave the candidate's
    values in place: its row has the empty string, which is not null, for
    title, description and publish timestamp, so the written row of a
    candidate matched to it has all three and its month bucket empty. *)
Theorem detail_without_snippet_blanks_fields (df : list CandidateRow)
    (details_df : list DetailRow) (c : CandidateRow) (item : VideoItem) :
  c ∈ df ->
  detail_row item ∈ details_df ->
  get (item_id item) = video_id c ->
  video_snippet item = None ->
  exists merged o,
    merge_details df details_df = Return merged
    /\ o ∈ add_month_bucket (reconcile merged)
    /\ o_video_id o = video_id c
    /\ o_title o = Some ""
    /\ o_description o = Some ""
    /\ o_publish_date o = Some ""
    /\ month_bucket o = Some "".
Proof.
  intros Hc Hd Hid Hsnippet.
  assert (Hne : details_df <> []) by (intros ->; by apply elem_of_nil in Hd).
  exists (map (fun p => joined (fst p) (snd p)) (pairing df details_df)).
  exists (bucket_row (reconcile_row (joined c (Some (detail_row item))))).
  split; [by apply merge_details_pairing|]. split.
  - rewrite reconcile_rows, add_month_bucket_rows, !map_map.
    apply list_elem_of_fmap. exists (c, Some (detail_row item)). split; [done|].
    unfold pairing. apply list_elem_of_In, in_flat_map. exists c.
    split; [by apply list_elem_of_In|]. apply list_elem_of_In.
    assert (Hf : detail_row item
                   ∈ filter (fun d => detail_video_id d = video_id c) details_df)
      by (by apply list_elem_of_filter).
    destruct (filter _ details_df) as [|d ms]; [by apply elem_of_nil in Hf|].
    apply list_elem_of_fmap. by exists (detail_row item).
  - unfold detail_row. rewrite Hsnippet. by repeat split.
Qed.

Lemma detail_without_snippet_blanks_fields_witness :
  exists merged o,
    merge_details [scenario_first]
      [detail_row (mkVideoItem (Some (Some "abc123")) None None)]
    = Return merged
    /\ o ∈ add_month_bucket (reconcile merged)
    /\ o_video_id o = video_id scenario_first
    /\ o_title o = Some ""
    /\ o_description o = Some ""
    /\ o_publish_date o = Some ""
    /\ month_bucket o = Some "".
Proof.
  apply (detail_without_snippet_blanks_fields [scenario_first]
           [detail_row (mkVideoItem (Some (Some "abc123")) None None)]
           scenario_first (mkVideoItem (Some (Some "abc123")) None None)).
  - by left.
  - by left.
  - reflexivity.
  - reflexivity.
Defined.

Lemma keep_unseen_distinct seen df :
  NoDup (map video_id df) ->
  (forall v, v ∈ map video_id df -> v ∉ seen) ->
  keep_unseen seen df = df.
Proof.
  revert seen. induction df as [|r df IH]; intros seen Hnd Hseen; [done|].
  simpl in Hnd. apply NoDup_cons in Hnd as [Hr Hnd].
  rewrite keep_unseen_cons, bool_decide_false by (apply Hseen; by left).
  f_equal. apply IH; [done|].
  intros v Hv [->|Hin]%elem_of_cons; [done|].
  apply (Hseen v); [by right|done].
Qed.

(** X15: deduplication never adds rows, leaves a table with pairwise
    distinct identifiers as it is, and so changes nothing when it is
    applied a second time. *)
Theorem drop_duplicates_idempotent (df : list CandidateRow) :
  length (drop_duplicates df) <= length df
  /\ (NoDup (map video_id df) -> drop_duplicates df = df)
  /\ drop_duplicates (drop_duplicates df) = drop_duplicates df.
Proof.
  assert (Hid : forall df, NoDup (map video_id df) -> drop_duplicates df = df).
  { intros df' Hnd. rewrite drop_duplicates_unseen.
    apply keep_unseen_distinct; [done|]. intros v _. apply not_elem_of_nil. }
  split; [|split; [apply Hid|]].
  - apply sublist_length. rewrite drop_duplicates_unseen.
    apply keep_unseen_sublist.
  - apply Hid. rewrite drop_duplicates_unseen. apply keep_unseen_NoDup.
Qed.

Lemma drop_duplicates_idempotent_witness :
  drop_duplicates (drop_duplicates scenario_rows) = drop_duplicates scenario_rows
  /\ length (drop_duplicates scenario_rows) <= 3.
Proof.
  destruct (drop_duplicates_idempotent scenario_rows) as [Hlen [_ Hidem]].
  split; [exact Hidem|exact Hlen].
Defined.


(** A run of [main] after the searches returned candidates. *)
Lemma sampler_main_after_search youtube all_rows :
  result (search_all youtube QUERIES) = Return all_rows ->
  drop_duplicates all_rows <> [] ->
  main youtube
  = let counted :=
      events (search_all youtube QUERIES)
        ++ [Print ("Raw candidates (before dedupe): " +:+ pretty (length all_rows));
            Print ("After dedupe: "
                   +:+ pretty (length (drop_duplicates all_rows)))] in
    match fetch_video_details youtube (map video_id (drop_duplicates all_rows)) with
    | Raise e => (counted, Raise e)
    | Return details_df =>
        match merge_details (drop_duplicates all_rows) details_df with
        | Raise e => (counted, Raise e)
        | Return merged =>
            (counted ++ [ToCsv "youtube_candidates_basic.csv"
                           (add_month_bucket (reconcile merged));
                         Print "Saved to youtube_candidates_basic.csv"],
             Return tt)
        end
    end.
Proof.
  intros Hall Hne. unfold main, events, result in *.
  destruct (search_all youtube QUERIES) as [evs o]. simpl in Hall. subst o.
  run. destruct (drop_duplicates all_rows) as [|c df] eqn:Hdf; [done|].
  destruct (fetch_video_details youtube (map video_id (c :: df)))
    as [details_df|e]; simpl; [|done].
  destruct (merge_details (c :: df) details_df) as [merged|e]; simpl; [|done].
  by rewrite <- app_assoc.
Qed.

Lemma pairing_length df details_df :
  length df <= length (pairing df details_df).
Proof.
  unfold pairing. induction df as [|c df IH]; [done|].
  cbn [flat_map]. rewrite length_app.
  destruct (filter _ details_df) as [|d ms]; simpl in *; lia.
Qed.

(** X16: when the searches return candidates and the details requests
    return at least one item, the run prints the two counts (rows found,
    rows after deduplication), hands one table to [to_csv] under the fixed
    file name, prints the closing line and returns; the table holds every
    deduplicated candidate at least once. *)
Theorem sampler_run_writes_candidates (youtube : Youtube)
    (all_rows : list CandidateRow) (details_df : list DetailRow) :
  result (search_all youtube QUERIES) = Return all_rows ->
  drop_duplicates all_rows <> [] ->
  fetch_video_details youtube (map video_id (drop_duplicates all_rows))
  = Return details_df ->
  details_df <> [] ->
  exists table,
    main youtube
    = (events (search_all youtube QUERIES)
         ++ [Print ("Raw candidates (before dedupe): "
                    +:+ pretty (length all_rows));
             Print ("After dedupe: "
                    +:+ pretty (length (drop_duplicates all_rows)));
             ToCsv "youtube_candidates_basic.csv" table;
             Print "Saved to youtube_candidates_basic.csv"],
       Return tt)
    /\ length (drop_duplicates all_rows) <= length table
    /\ forall c, c ∈ drop_duplicates all_rows ->
         exists o, o ∈ table /\ o_video_id o = video_id c /\ o_query o = query c.
Proof.
  intros Hall Hne Hdetails Hsome.
  rewrite (sampler_main_after_search _ _ Hall Hne). cbv zeta.
  rewrite Hdetails, merge_details_pairing by done.
  eexists. split; [by rewrite <- app_assoc|].
  rewrite reconcile_rows, add_month_bucket_rows, !map_map. split.
  - rewrite length_map. apply pairing_length.
  - intros c Hc. destruct (pairing_covers _ details_df _ Hc) as [d Hd].
    exists (bucket_row (reconcile_row (joined c d))). split.
    + apply list_elem_of_fmap. by exists (c, d).
    + by destruct d.
Qed.

Lemma sampler_run_writes_candidates_witness :
  exists table,
    main scenario_youtube
    = (events (search_all scenario_youtube QUERIES)
         ++ [Print ("Raw candidates (before dedupe): " +:+ pretty 3);
             Print ("After dedupe: " +:+ pretty 2);
             ToCsv "youtube_candidates_basic.csv" table;
             Print "Saved to youtube_candidates_basic.csv"],
       Return tt)
    /\ 2 <= length table.
Proof.
  destruct (sampler_run_writes_candidates scenario_youtube scenario_rows
              scenario_details) as [table [Hrun [Hlen _]]].
  - reflexivity.
  - discriminate.
  - reflexivity.
  - discriminate.
  - exists table. split; [exact Hrun|exact Hlen].
Defined.

(** X17: when the searches return candidates but the details requests
    return no item at all, the merge finds no key column in the empty
    details table: the run ends with [KeyError] after the two counts were
    printed, and the candidates are not written. *)
Theorem sampler_without_details_raises (youtube : Youtube)
    (all_rows : list CandidateRow) :
  result (search_all youtube QUERIES) = Return all_rows ->
  drop_duplicates all_rows <> [] ->
  fetch_video_details youtube (map video_id (drop_duplicates all_rows))
  = Return [] ->
  result (main youtube) = Raise (KeyError "video_id")
  /\ written_candidates (main youtube) = []
  /\ last (events (main youtube))
     = Some (Print ("After dedupe: "
                    +:+ pretty (length (drop_duplicates all_rows)))).
Proof.
  intros Hall Hne Hdetails.
  rewrite (sampler_main_after_search _ _ Hall Hne). cbv zeta. rewrite Hdetails.
  pose proof (search_all_events youtube QUERIES) as Hev. revert Hev.
  generalize (events (search_all youtube QUERIES)) as evs. intros evs Hev.
  cbn [merge_details]. split; [done|]. split.
  - unfold written_candidates, events. cbn [fst].
    by rewrite prints_write_nothing.
  - unfold events. cbn [fst]. by rewrite last_app.
Qed.

Lemma sampler_without_details_raises_witness :
  result (main forgetful_youtube) = Raise (KeyError "video_id")
  /\ written_candidates (main forgetful_youtube) = [].
Proof.
  destruct (sampler_without_details_raises forgetful_youtube
              [mkCandidateRow (Some "abc123") None None None None (Some "")
                 "AI tools for content creation";
               mkCandidateRow (Some "abc123") None None None None (Some "")
                 "AI tools for content creators";
               mkCandidateRow (Some "abc123") None None None None (Some "")
                 "AI workflow for content creation"])
    as [Hres [Hw _]].
  - reflexivity.
  - discriminate.
  - reflexivity.
  - split; [exact Hres|exact Hw].
Defined.

(** The window of the searches, as [iso_date] prints it. *)
Example window_dates :
  iso_date 2025 8 1 = Return START_DATE /\ iso_date 2025 11 22 = Return END_DATE.
Proof. split; reflexivity. Qed.

End SamplerPipeline.

Section Dates.
Import YoutubeAigcSampler.

Lemma zero_pad_checked (width bound : nat) (n : Z) :
  forallb (fun k => (String.length (zero_pad width (Z.of_nat k)) =? width)
                    && (digits_value (zero_pad width (Z.of_nat k)) =? Z.of_nat k)%Z)
    (seq 0 bound) = true ->
  (0 <= n < Z.of_nat bound)%Z ->
  String.length (zero_pad width n) = width /\ digits_value (zero_pad width n) = n.
Proof.
  intros Hall Hn. rewrite forallb_forall in Hall.
  specialize (Hall (Z.to_nat n)). rewrite Z2Nat.id in Hall by lia.
  apply andb_prop in Hall as [Hlen Hval].
  - split; [by apply Nat.eqb_eq|by apply Z.eqb_eq].
  - apply in_seq. lia.
Qed.

Lemma zero_pad_year n :
  (0 <= n < 10000)%Z ->
  String.length (zero_pad 4 n) = 4 /\ digits_value (zero_pad 4 n) = n.
Proof. apply (zero_pad_checked 4 (100 * 100)). by vm_compute. Qed.

Lemma zero_pad_two n :
  (0 <= n < 100)%Z ->
  String.length (zero_pad 2 n) = 2 /\ digits_value (zero_pad 2 n) = n.
Proof. apply (zero_pad_checked 2 100). by vm_compute. Qed.

Lemma days_in_month_bound y m : (28 <= days_in_month y m <= 31)%Z.
Proof.
  unfold days_in_month.
  repeat match goal with |- context [if ?b then _ else _] => destruct b end; lia.
Qed.

Lemma length_2_inv s :
  String.length s = 2 -> exists a b, s = String a (String b EmptyString).
Proof. destruct s as [|a [|b [|c s]]]; try done. intros _. by exists a, b. Qed.

Lemma length_4_inv s :
  String.length s = 4 ->
  exists a b c d, s = String a (String b (String c (String d EmptyString))).
Proof.
  destruct s as [|a [|b [|c [|d [|e s]]]]]; try done. intros _.
  by exists a, b, c, d.
Qed.

Lemma iso_date_valid y m d :
  valid_date y m d ->
  iso_date y m d
  = Return (zero_pad 4 y +:+ "-" +:+ zero_pad 2 m +:+ "-" +:+ zero_pad 2 d
            +:+ "T00:00:00" +:+ "Z").
Proof.
  intros (Hy & Hm & Hd). pose proof (days_in_month_bound y m) as Hdays.
  unfold iso_date, fits_c_int.
  replace ((-2147483648 <=? y) && (y <=? 2147483647))%Z with true by lia.
  replace ((-2147483648 <=? m) && (m <=? 2147483647))%Z with true by lia.
  replace ((-2147483648 <=? d) && (d <=? 2147483647))%Z with true by lia.
  cbn [andb negb].
  replace ((1 <=? y) && (y <=? 9999))%Z with true by lia.
  replace ((1 <=? m) && (m <=? 12))%Z with true by lia.
  replace ((1 <=? d) && (d <=? days_in_month y m))%Z with true by lia.
  done.
Qed.

Lemma iso_date_returns y m d s :
  iso_date y m d = Return s -> valid_date y m d.
Proof.
  unfold iso_date, valid_date.
  destruct (fits_c_int y && fits_c_int m && fits_c_int d); [|done].
  cbn [negb].
  destruct ((1 <=? y) && (y <=? 9999))%Z eqn:Hy; [|done].
  destruct ((1 <=? m) && (m <=? 12))%Z eqn:Hm; [|done].
  destruct ((1 <=? d) && (d <=? days_in_month y m))%Z eqn:Hd; [|done].
  intros _. lia.
Qed.

(** X18: [iso_date] returns exactly for the days of the calendar (years 1
    to 9999, leap years counted); for three numbers that fit a C [int]
    and are no such day it raises [ValueError], and it raises
    [OverflowError] as soon as one of them does not fit; what it returns
    has 20 characters, ends with the time of midnight and [Z], and has
    the four-digit year, a dash and the two-digit month as its first seven
    characters, which is the form of a month bucket. *)
Theorem iso_date_format (y m d : Z) :
  (valid_date y m d ->
   exists s date,
     iso_date y m d = Return s
     /\ String.length s = 20
     /\ s = date +:+ "T00:00:00Z"
     /\ str_slice_0_7 (Some s) = Some (zero_pad 4 y +:+ "-" +:+ zero_pad 2 m)
     /\ String.length (zero_pad 4 y +:+ "-" +:+ zero_pad 2 m) = 7)
  /\ (~ valid_date y m d ->
      fits_c_int y = true -> fits_c_int m = true -> fits_c_int d = true ->
      exists msg, iso_date y m d = Raise (ValueError msg))
  /\ (fits_c_int y = false \/ fits_c_int m = false \/ fits_c_int d = false ->
      iso_date y m d = Raise (OtherException "OverflowError"))
  /\ ((exists s, iso_date y m d = Return s) -> valid_date y m d).
Proof.
  split; [|split; [|split]].
  - intros Hvalid. pose proof Hvalid as (Hy & Hm & Hd).
    pose proof (days_in_month_bound y m) as Hdays.
    rewrite (iso_date_valid _ _ _ Hvalid).
    destruct (zero_pad_year y) as [Hly _]; [lia|].
    destruct (zero_pad_two m) as [Hlm _]; [lia|].
    destruct (zero_pad_two d) as [Hld _]; [lia|].
    apply length_4_inv in Hly as (a1 & a2 & a3 & a4 & ->).
    apply length_2_inv in Hlm as (b1 & b2 & ->).
    apply length_2_inv in Hld as (c1 & c2 & ->).
    eexists.
    eexists (String a1 (String a2 (String a3 (String a4 (String "-"%char
              (String b1 (String b2 (String "-"%char
                (String c1 (String c2 "")))))))))).
    repeat split; reflexivity.
  - intros Hinvalid Hfy Hfm Hfd. unfold iso_date. rewrite Hfy, Hfm, Hfd.
    cbn [andb negb].
    destruct ((1 <=? y) && (y <=? 9999))%Z eqn:Hy; [|by eexists].
    destruct ((1 <=? m) && (m <=? 12))%Z eqn:Hm; [|by eexists].
    destruct ((1 <=? d) && (d <=? days_in_month y m))%Z eqn:Hd; [|by eexists].
    exfalso. apply Hinvalid. unfold valid_date. lia.
  - intros Hover. unfold iso_date.
    destruct (fits_c_int y), (fits_c_int m), (fits_c_int d); try done;
      destruct Hover as [H|[H|H]]; discriminate H.
  - intros [s Hs]. by apply (iso_date_returns y m d s).
Qed.

Lemma iso_date_format_witness :
  (exists s date,
     iso_date 2024 2 29 = Return s
     /\ String.length s = 20
     /\ s = date +:+ "T00:00:00Z"
     /\ str_slice_0_7 (Some s) = Some (zero_pad 4 2024 +:+ "-" +:+ zero_pad 2 2)
     /\ String.length (zero_pad 4 2024 +:+ "-" +:+ zero_pad 2 2) = 7)
  /\ (exists msg, iso_date 2025 2 29 = Raise (ValueError msg))
  /\ iso_date 2147483648 1 1 = Raise (OtherException "OverflowError").
Proof.
  split; [|split].
  - apply (proj1 (iso_date_format 2024 2 29)). unfold valid_date. compute_done.
  - apply (proj1 (proj2 (iso_date_format 2025 2 29)));
      [unfold valid_date; compute_done|reflexivity|reflexivity|reflexivity].
  - apply (proj1 (proj2 (proj2 (iso_date_format 2147483648 1 1)))).
    left. reflexivity.
Defined.

(** X19: the date can be read back from what [iso_date] returns: the
    digits at positions 0 to 3, 5 to 6 and 8 to 9 denote the year, the
    month and the day; so two dates with the same string are the same
    date. *)
Theorem iso_date_round_trip (y m d : Z) (s : string) :
  iso_date y m d = Return s ->
  digits_value (str_slice 0 4 s) = y
  /\ digits_value (str_slice 5 7 s) = m
  /\ digits_value (str_slice 8 10 s) = d
  /\ forall y' m' d', iso_date y' m' d' = Return s ->
       y' = y /\ m' = m /\ d' = d.
Proof.
  assert (Hread : forall y m d s, iso_date y m d = Return s ->
            digits_value (str_slice 0 4 s) = y
            /\ digits_value (str_slice 5 7 s) = m
            /\ digits_value (str_slice 8 10 s) = d).
  { clear. intros y m d s Hs. pose proof (iso_date_returns _ _ _ _ Hs) as Hvalid.
    pose proof Hvalid as (Hy & Hm & Hd).
    pose proof (days_in_month_bound y m) as Hdays.
    rewrite (iso_date_valid _ _ _ Hvalid) in Hs. injection Hs as <-.
    destruct (zero_pad_year y) as [Hly Hvy]; [lia|].
    destruct (zero_pad_two m) as [Hlm Hvm]; [lia|].
    destruct (zero_pad_two d) as [Hld Hvd]; [lia|].
    revert Hvy Hvm Hvd.
    apply length_4_inv in Hly as (a1 & a2 & a3 & a4 & ->).
    apply length_2_inv in Hlm as (b1 & b2 & ->).
    apply length_2_inv in Hld as (c1 & c2 & ->).
    intros Hvy Hvm Hvd. repeat split; assumption. }
  intros Hs. destruct (Hread _ _ _ _ Hs) as (Hy & Hm & Hd).
  split; [done|]. split; [done|]. split; [done|].
  intros y' m' d' Hs'. destruct (Hread _ _ _ _ Hs') as (Hy' & Hm' & Hd').
  repeat split; congruence.
Qed.

Lemma iso_date_round_trip_witness :
  digits_value (str_slice 0 4 "2025-08-01T00:00:00Z") = 2025%Z
  /\ digits_value (str_slice 5 7 "2025-08-01T00:00:00Z") = 8%Z
  /\ digits_value (str_slice 8 10 "2025-08-01T00:00:00Z") = 1%Z.
Proof.
  destruct (iso_date_round_trip 2025 8 1 "2025-08-01T00:00:00Z" eq_refl)
    as (Hy & Hm & Hd & _).
  repeat split; assumption.
Defined.

End Dates.
